(** * LinkList: the state-synchronisation policy of [src/app/page.tsx]

    A shallow embedding of the [App] component: its six [useState] cells,
    its handlers ([addLink], [updateLink], [removeLink], [handleDragEnd],
    [handleJsonChange], [downloadJson], [uploadJson]), the [useEffect] that
    mirrors the structured state into the JSON text buffer, the render of
    [App] and [SortableLinkRow] as far as it can throw, and the part of the
    rendered tree that decides which handlers a user can reach.

    The built-ins the handlers call ([JSON.parse], [JSON.stringify],
    [Array.prototype.splice], [String.prototype.replace], dnd-kit's
    [arrayMove]) are modelled from ECMAScript and from the library's source,
    and so is what React does with a key, with the value of an input and
    with a child; everything else is translated from [page.tsx]. *)

From Stdlib Require Import Ascii String.
From Stdlib Require Import List NArith ZArith Lia Bool Permutation.
Import ListNotations.
Local Open Scope list_scope.

Set Implicit Arguments.

(** ** JavaScript strings

    A JavaScript string is a sequence of UTF-16 code units.  The regular
    expression of [downloadJson] has no [u] flag and [JSON.stringify] escapes
    lone surrogates, so the model keeps code units and not characters. *)

Definition code_unit := N.
Definition jsstring := list code_unit.

Definition ch (a : ascii) : code_unit := N_of_ascii a.
Arguments ch a%_char.

(** A string literal of the source, all of whose characters are ASCII. *)
Definition js (s : string) : jsstring := map N_of_ascii (list_ascii_of_string s).
Arguments js s%_string.

Fixpoint str_eqb (a b : jsstring) : bool :=
  match a, b with
  | [], [] => true
  | x :: a', y :: b' => N.eqb x y && str_eqb a' b'
  | _, _ => false
  end.

(** The double quote and the backslash. *)
Definition dquote : code_unit := 34%N.
Definition backslash : code_unit := 92%N.

Definition in_range (lo hi c : code_unit) : bool := N.leb lo c && N.leb c hi.

Definition is_digit (c : code_unit) : bool := in_range (ch "0") (ch "9") c.
Definition is_lower (c : code_unit) : bool := in_range (ch "a") (ch "z") c.
Definition is_upper (c : code_unit) : bool := in_range (ch "A") (ch "Z") c.

(** ** Numbers

    A JavaScript number is an IEEE 754 binary64.  The values [JSON.parse] can
    produce are the zeros, the infinities (a literal such as [1e999]) and the
    finite non-zero doubles, kept here exactly as [m * 2^e] with
    [2^52 <= m < 2^53], or [m < 2^52] and [e = -1074] for a subnormal.  NaN
    has no JSON literal and no handler computes with numbers, so it is not
    part of the model. *)

Inductive number :=
| NZero (neg : bool)
| NFinite (neg : bool) (m : Z) (e : Z)
| NInf (neg : bool).

Definition number_eqb (a b : number) : bool :=
  match a, b with
  | NZero s, NZero t => Bool.eqb s t
  | NFinite s m e, NFinite t m' e' => Bool.eqb s t && Z.eqb m m' && Z.eqb e e'
  | NInf s, NInf t => Bool.eqb s t
  | _, _ => false
  end.

(** [num / den * 10^p] as a fraction, for [den > 0]. *)
Definition scale10 (num den p : Z) : Z * Z :=
  if (0 <=? p)%Z then (num * 10 ^ p, den)%Z else (num, den * 10 ^ (- p))%Z.

(** [num / den * 2^p] as a fraction, for [den > 0]. *)
Definition scale2 (num den p : Z) : Z * Z :=
  if (0 <=? p)%Z then (num * 2 ^ p, den)%Z else (num, den * 2 ^ (- p))%Z.

(** Division rounded to nearest, ties to even. *)
Definition div_half_even (a b : Z) : Z :=
  let q := (a / b)%Z in
  let r := (a mod b)%Z in
  match (2 * r ?= b)%Z with
  | Lt => q
  | Gt => (q + 1)%Z
  | Eq => if Z.even q then q else (q + 1)%Z
  end.

(** The double nearest to the positive rational [num / den] (round to
    nearest, ties to even), with the sign [neg]. *)
Definition round_double (neg : bool) (num den : Z) : number :=
  if (num <=? 0)%Z then NZero neg else
  let e1 := (Z.log2 num - Z.log2 den - 52)%Z in
  let '(a1, b1) := scale2 num den (- e1) in
  let e2 := if (a1 / b1 <? 2 ^ 52)%Z then (e1 - 1)%Z else e1 in
  let e := Z.max e2 (-1074) in
  let '(a, b) := scale2 num den (- e) in
  let m := div_half_even a b in
  let '(m, e) := if (m =? 2 ^ 53)%Z then (2 ^ 52, e + 1)%Z else (m, e) in
  if (m =? 0)%Z then NZero neg
  else if (971 <? e)%Z then NInf neg
  else NFinite neg m e.

(** The Number value of a decimal literal [digits * 10^exp10]. *)
Definition number_of_decimal (neg : bool) (digits : N) (exp10 : Z) : number :=
  let '(a, b) := scale10 (Z.of_N digits) 1 exp10 in
  round_double neg a b.

(** *** Number::toString, the shortest decimal that reads back as the double *)

Fixpoint digits_of_uint (d : Decimal.uint) : jsstring :=
  match d with
  | Decimal.Nil => []
  | Decimal.D0 r => ch "0" :: digits_of_uint r
  | Decimal.D1 r => ch "1" :: digits_of_uint r
  | Decimal.D2 r => ch "2" :: digits_of_uint r
  | Decimal.D3 r => ch "3" :: digits_of_uint r
  | Decimal.D4 r => ch "4" :: digits_of_uint r
  | Decimal.D5 r => ch "5" :: digits_of_uint r
  | Decimal.D6 r => ch "6" :: digits_of_uint r
  | Decimal.D7 r => ch "7" :: digits_of_uint r
  | Decimal.D8 r => ch "8" :: digits_of_uint r
  | Decimal.D9 r => ch "9" :: digits_of_uint r
  end.

(** The decimal digits of a natural number, ["0"] for zero. *)
Definition decimal (n : N) : jsstring := digits_of_uint (N.to_uint n).

Fixpoint strip_zeros_rev (r : jsstring) : jsstring :=
  match r with
  | c :: r' => if N.eqb c (ch "0") then strip_zeros_rev r' else r
  | [] => []
  end.

Definition strip_trailing_zeros (s : jsstring) : jsstring :=
  rev (strip_zeros_rev (rev s)).

(** The [n] with [10^(n-1) <= num/den < 10^n], from an estimate corrected
    upwards and downwards. *)
Fixpoint adjust_magnitude (fuel : nat) (num den n : Z) : Z :=
  match fuel with
  | O => n
  | S fuel' =>
      let '(a, b) := scale10 num den (- n) in
      if (b <=? a)%Z then adjust_magnitude fuel' num den (n + 1)%Z
      else
        let '(a', b') := scale10 num den (- (n - 1)) in
        if (a' <? b')%Z then adjust_magnitude fuel' num den (n - 1)%Z
        else n
  end.

Definition magnitude (num den : Z) : Z :=
  adjust_magnitude 8 num den ((Z.log2 num - Z.log2 den) * 30103 / 100000)%Z.

(** For [k = 1, 2, ...]: the [k]-digit decimals next to [num/den], the first
    [k] at which one of them reads back as [x], and of the two the closer. *)
Fixpoint shortest_digits (fuel : nat) (x : number) (num den n k : Z) : Z * Z :=
  let p := (n - k)%Z in
  let '(a, b) := scale10 num den (- p) in
  let s1 := (a / b)%Z in
  let s2 := (s1 + 1)%Z in
  let ok s := let '(c, d) := scale10 s 1 p in number_eqb (round_double false c d) x in
  let pick :=
    match ok s1, ok s2 with
    | true, true =>
        match (2 * (a - s1 * b) ?= b)%Z with
        | Lt => Some s1
        | Gt => Some s2
        | Eq => Some (if Z.even s1 then s1 else s2)
        end
    | true, false => Some s1
    | false, true => Some s2
    | false, false => None
    end in
  match pick, fuel with
  | Some s, _ => (s, k)
  | None, S fuel' => shortest_digits fuel' x num den n (k + 1)%Z
  | None, O => (s1, k)
  end.

Definition Number_toString (x : number) : jsstring :=
  match x with
  | NZero _ => js "0"
  | NInf neg => (if neg then js "-" else []) ++ js "Infinity"
  | NFinite neg m e =>
      let '(num, den) := scale2 m 1 e in
      let n0 := magnitude num den in
      let '(s, k0) := shortest_digits 17 (NFinite false m e) num den n0 1 in
      let n := if (s =? 10 ^ k0)%Z then (n0 + 1)%Z else n0 in
      let ds := strip_trailing_zeros (decimal (Z.to_N s)) in
      let k := Z.of_nat (length ds) in
      let body :=
        if ((k <=? n) && (n <=? 21))%Z then ds ++ repeat (ch "0") (Z.to_nat (n - k))
        else if ((0 <? n) && (n <=? 21))%Z then
          firstn (Z.to_nat n) ds ++ js "." ++ skipn (Z.to_nat n) ds
        else if ((-6 <? n) && (n <=? 0))%Z then
          js "0." ++ repeat (ch "0") (Z.to_nat (- n)) ++ ds
        else
          let ex := (n - 1)%Z in
          let tail := js "e" ++ (if (ex <? 0)%Z then js "-" else js "+")
                           ++ decimal (Z.to_N (Z.abs ex)) in
          match ds with
          | [d] => d :: tail
          | d :: rest => d :: js "." ++ rest ++ tail
          | [] => tail
          end in
      (if neg then js "-" else []) ++ body
  end.

(** ** Values

    The values a [useState] cell of [App] can hold at run time: what
    [JSON.parse] returns ([any], stored by [setLinks] and [setTitle] without
    a check), the strings and records the handlers build themselves, and
    [undefined], which a missing property reads as.  An object is its own
    properties in enumeration order. *)

#[warnings="-register-all"]
Inductive value :=
| VUndef
| VNull
| VBool (b : bool)
| VNum (n : number)
| VStr (s : jsstring)
| VArr (xs : list value)
| VObj (props : list (jsstring * value)).

(** [type LinkItem = { id: string; label: string; url: string }] *)
Record LinkItem := mkLink { id : jsstring; label : jsstring; url : jsstring }.

(** The object literal [{ id: ..., label: ..., url: ... }]. *)
Definition link_value (l : LinkItem) : value :=
  VObj [(js "id", VStr (id l)); (js "label", VStr (label l)); (js "url", VStr (url l))].

(** The second parameter of [updateLink]: ['label' | 'url']. *)
Inductive field := Label | Url.

Definition field_name (f : field) : jsstring :=
  match f with Label => js "label" | Url => js "url" end.

(** *** Exceptions *)

(** The two exceptions that stop the page: a TypeError of the language, and
    the plain Error React throws for a child it cannot render. *)
Inductive exn := TypeError | Error.

Inductive res (A : Type) :=
| Ok (a : A)
| Throw (e : exn).
Arguments Ok {A} a.
Arguments Throw {A} e.

Definition bind {A B} (r : res A) (k : A -> res B) : res B :=
  match r with
  | Ok a => k a
  | Throw e => Throw e
  end.

Notation "x <- r ;; k" := (bind r (fun x => k))
  (at level 61, r at next level, right associativity).

(** *** Operators *)

(** ToBoolean *)
Definition truthy (v : value) : bool :=
  match v with
  | VUndef | VNull => false
  | VBool b => b
  | VNum (NZero _) => false
  | VNum _ => true
  | VStr s => match s with [] => false | _ => true end
  | VArr _ | VObj _ => true
  end.

(** [typeof v === 'object'] *)
Definition typeof_object (v : value) : bool :=
  match v with
  | VNull | VArr _ | VObj _ => true
  | _ => false
  end.

(** [Array.isArray(v)] *)
Definition Array_isArray (v : value) : bool :=
  match v with VArr _ => true | _ => false end.

(** Number::equal: the two zeros are equal. *)
Definition Number_equal (a b : number) : bool :=
  match a, b with
  | NZero _, NZero _ => true
  | _, _ => number_eqb a b
  end.

(** [a === b] for two values that are not one and the same object:
    primitives are compared by value, and two objects or two arrays are two
    references. *)
Definition strict_eq (a b : value) : bool :=
  match a, b with
  | VUndef, VUndef => true
  | VNull, VNull => true
  | VBool x, VBool y => Bool.eqb x y
  | VNum x, VNum y => Number_equal x y
  | VStr x, VStr y => str_eqb x y
  | _, _ => false
  end.

(** [a || b] *)
Definition js_or (a b : value) : value := if truthy a then a else b.

Fixpoint lookup (k : jsstring) (ps : list (jsstring * value)) : option value :=
  match ps with
  | [] => None
  | (k', v) :: ps' => if str_eqb k' k then Some v else lookup k ps'
  end.

(** The value of [v.k] when [v] is not [null] or [undefined], for one of the
    names the source reads: [id], [label], [url], [items] and [title].  None of
    [Object.prototype], [Array.prototype], [String.prototype],
    [Number.prototype] and [Boolean.prototype] has a property of these names,
    and they name no index and no [length], so the result is the own
    property of an object, and [undefined] for everything else. *)
Definition prop (v : value) (k : jsstring) : value :=
  match v with
  | VObj ps => match lookup k ps with Some x => x | None => VUndef end
  | _ => VUndef
  end.

(** [v.k]: reading a property of [null] or [undefined] throws. *)
Definition get (v : value) (k : jsstring) : res value :=
  match v with
  | VUndef | VNull => Throw TypeError
  | _ => Ok (prop v k)
  end.

(** [null] and [undefined], the values a property cannot be read from. *)
Definition nullish (v : value) : bool :=
  match v with VUndef | VNull => true | _ => false end.

(** ToString, as ['' + v] computes it; [None] is the TypeError of a value
    that cannot be converted.  An object made by [JSON.parse] or by an
    object literal inherits [Object.prototype.toString], unless it has an
    own property of that name: that one is not callable, and neither it nor
    [valueOf] gives a primitive, so the conversion throws.  An array is
    joined with commas, where [null] and [undefined] give the empty
    string. *)
Fixpoint ToString (v : value) : option jsstring :=
  match v with
  | VUndef => Some (js "undefined")
  | VNull => Some (js "null")
  | VBool b => Some (if b then js "true" else js "false")
  | VNum n => Some (Number_toString n)
  | VStr s => Some s
  | VArr xs =>
      (fix join_elements (xs : list value) : option jsstring :=
         match xs with
         | [] => Some []
         | x :: xs' =>
             match (if nullish x then Some [] else ToString x) with
             | Some a =>
                 match xs' with
                 | [] => Some a
                 | _ :: _ =>
                     match join_elements xs' with
                     | Some b => Some (a ++ js "," ++ b)
                     | None => None
                     end
                 end
             | None => None
             end
         end) xs
  | VObj ps =>
      match lookup (js "toString") ps with
      | Some _ => None
      | None => Some (js "[object Object]")
      end
  end.

(** *** Ids

    A row hands [link.id] as it is to [updateLink], [removeLink] and
    [useSortable], whatever the type [LinkItem] says: a primitive, which
    [===] compares by value, or an object or array, which [===] compares by
    reference.  [JSON.parse] makes a new object for every place of the text
    and the handlers move and copy links without putting one id at two
    places of the list, so that the object that is the id of a link is
    named by the position of the link in the list at hand. *)
Inductive Id :=
| IdVal (v : value)
| IdRef (row : nat).

(** A string id, as [LinkItem] has it. *)
Definition str_id (i : jsstring) : Id := IdVal (VStr i).

(** The values that are references. *)
Definition is_reference (v : value) : bool :=
  match v with
  | VArr _ => true
  | VObj _ => true
  | _ => false
  end.

(** The id the row at position [row] hands out for its [link]. *)
Definition id_of_row (row : nat) (link : value) : Id :=
  if is_reference (prop link (js "id")) then IdRef row
  else IdVal (prop link (js "id")).

(** [lid === id], for [lid] the id of the link at position [row]. *)
Definition same_id (row : nat) (lid : value) (id : Id) : bool :=
  match id with
  | IdVal v => strict_eq lid v
  | IdRef r => Nat.eqb row r && is_reference lid
  end.

(** [a === b] for two ids handed out by rows. *)
Definition Id_equal (a b : Id) : bool :=
  match a, b with
  | IdVal v, IdVal w => strict_eq v w
  | IdRef r, IdRef r' => Nat.eqb r r'
  | _, _ => false
  end.

(** *** Property order

    The own string keys of an ordinary object enumerate with the array
    indices first, in ascending order, and the other keys after them in the
    order they were created. *)

Fixpoint digits_value (s : jsstring) (acc : N) : option N :=
  match s with
  | [] => Some acc
  | c :: r => if is_digit c then digits_value r (10 * acc + (c - ch "0"))%N else None
  end.

(** An array index is the canonical decimal form of an integer in
    [0, 2^32 - 2]. *)
Definition array_index (k : jsstring) : option N :=
  match k with
  | [] => None
  | c :: r =>
      if N.eqb c (ch "0") && negb (match r with [] => true | _ => false end) then None
      else if Nat.ltb 10 (length k) then None
      else match digits_value k 0%N with
           | Some n => if (n <=? 4294967294)%N then Some n else None
           | None => None
           end
  end.

(** The position of a new index key [n]: before the first key that is not an
    index or is a larger index. *)
Fixpoint insert_index (n : N) (k : jsstring) (v : value)
    (ps : list (jsstring * value)) : list (jsstring * value) :=
  match ps with
  | [] => [(k, v)]
  | (k', v') :: ps' =>
      match array_index k' with
      | Some n' => if (n' <? n)%N then (k', v') :: insert_index n k v ps'
                   else (k, v) :: ps
      | None => (k, v) :: ps
      end
  end.

Fixpoint replace_prop (k : jsstring) (v : value)
    (ps : list (jsstring * value)) : list (jsstring * value) :=
  match ps with
  | [] => []
  | (k', v') :: ps' =>
      if str_eqb k' k then (k', v) :: ps' else (k', v') :: replace_prop k v ps'
  end.

(** CreateDataProperty: an existing key keeps its place and takes the new
    value, a new key is created. *)
Definition set_prop (ps : list (jsstring * value)) (k : jsstring) (v : value)
    : list (jsstring * value) :=
  match lookup k ps with
  | Some _ => replace_prop k v ps
  | None =>
      match array_index k with
      | Some n => insert_index n k v ps
      | None => ps ++ [(k, v)]
      end
  end.

Fixpoint indexed (i : N) (xs : list value) : list (jsstring * value) :=
  match xs with
  | [] => []
  | x :: xs' => (decimal i, x) :: indexed (N.succ i) xs'
  end.

(** The own enumerable properties an object spread [{ ...v }] copies:
    those of an object, the elements of an array, the code units of a
    string, none for the other values. *)
Definition spread_props (v : value) : list (jsstring * value) :=
  match v with
  | VObj ps => ps
  | VArr xs => indexed 0%N xs
  | VStr s => indexed 0%N (map (fun c => VStr [c]) s)
  | _ => []
  end.

(** ** JSON.stringify(value, null, 2) *)

Definition hex_digit (d : N) : code_unit :=
  if (d <? 10)%N then (ch "0" + d)%N else (ch "a" + (d - 10))%N.

(** [\uXXXX], in lower-case hexadecimal. *)
Definition unicode_escape (c : code_unit) : jsstring :=
  [backslash; ch "u"; hex_digit (c / 4096 mod 16); hex_digit (c / 256 mod 16);
   hex_digit (c / 16 mod 16); hex_digit (c mod 16)]%N.

Definition is_high_surrogate (c : code_unit) : bool := in_range 55296%N 56319%N c.
Definition is_low_surrogate (c : code_unit) : bool := in_range 56320%N 57343%N c.

Definition quote_unit (c : code_unit) : jsstring :=
  if N.eqb c 8%N then [backslash; ch "b"]
  else if N.eqb c 9%N then [backslash; ch "t"]
  else if N.eqb c 10%N then [backslash; ch "n"]
  else if N.eqb c 12%N then [backslash; ch "f"]
  else if N.eqb c 13%N then [backslash; ch "r"]
  else if N.eqb c dquote then [backslash; dquote]
  else if N.eqb c backslash then [backslash; backslash]
  else if (c <? 32)%N then unicode_escape c
  else if is_high_surrogate c || is_low_surrogate c then unicode_escape c
  else [c].

(** The body of QuoteJSONString: the string is read by code points, so a
    surrogate pair is copied and a lone surrogate is escaped. *)
Fixpoint quote_body (s : jsstring) : jsstring :=
  match s with
  | [] => []
  | c :: r =>
      match r with
      | d :: r' =>
          if is_high_surrogate c && is_low_surrogate d then c :: d :: quote_body r'
          else quote_unit c ++ quote_body r
      | [] => quote_unit c
      end
  end.

Definition QuoteJSONString (s : jsstring) : jsstring :=
  dquote :: quote_body s ++ [dquote].

Fixpoint join (sep : jsstring) (parts : list jsstring) : jsstring :=
  match parts with
  | [] => []
  | [p] => p
  | p :: ps => p ++ sep ++ join sep ps
  end.

Definition gap : jsstring := js "  ".

Definition wrap (open close stepback indent : jsstring) (partial : list jsstring) : jsstring :=
  match partial with
  | [] => open ++ close
  | _ => open ++ ch "010" :: indent
              ++ join (ch "," :: ch "010" :: indent) partial
              ++ ch "010" :: stepback ++ close
  end.

(** SerializeJSONProperty with [gap] two spaces and no replacer; [None] is
    the result [undefined].  A value in the model has no [toJSON] method. *)
Fixpoint SerializeJSONProperty (stepback : jsstring) (v : value) : option jsstring :=
  let indent := stepback ++ gap in
  match v with
  | VUndef => None
  | VNull => Some (js "null")
  | VBool b => Some (if b then js "true" else js "false")
  | VNum (NInf _) => Some (js "null")
  | VNum n => Some (Number_toString n)
  | VStr s => Some (QuoteJSONString s)
  | VArr xs =>
      let partial :=
        (fix elements (xs : list value) : list jsstring :=
           match xs with
           | [] => []
           | x :: xs' =>
               match SerializeJSONProperty indent x with
               | Some str => str
               | None => js "null"
               end :: elements xs'
           end) xs in
      Some (wrap (js "[") (js "]") stepback indent partial)
  | VObj ps =>
      let partial :=
        (fix members (ps : list (jsstring * value)) : list jsstring :=
           match ps with
           | [] => []
           | (k, x) :: ps' =>
               match SerializeJSONProperty indent x with
               | Some str => (QuoteJSONString k ++ js ": " ++ str) :: members ps'
               | None => members ps'
               end
           end) ps in
      Some (wrap (js "{") (js "}") stepback indent partial)
  end.

(** [JSON.stringify({ title: title, items: links }, null, 2)]: the wrapper
    object is never [undefined], so the result is a string. *)
Definition JSON_stringify_data (title : value) (links : list value) : jsstring :=
  match SerializeJSONProperty [] (VObj [(js "title", title); (js "items", VArr links)]) with
  | Some str => str
  | None => []
  end.

(** ** JSON.parse

    [None] is the SyntaxError [JSON.parse] throws. *)

Definition is_ws (c : code_unit) : bool :=
  N.eqb c 32%N || N.eqb c 9%N || N.eqb c 10%N || N.eqb c 13%N.

Fixpoint skip_ws (s : jsstring) : jsstring :=
  match s with
  | c :: r => if is_ws c then skip_ws r else s
  | [] => []
  end.

Definition hex_value (c : code_unit) : option N :=
  if is_digit c then Some (c - ch "0")%N
  else if in_range (ch "a") (ch "f") c then Some (c - ch "a" + 10)%N
  else if in_range (ch "A") (ch "F") c then Some (c - ch "A" + 10)%N
  else None.

Definition hex4 (a b c d : code_unit) : option code_unit :=
  match hex_value a, hex_value b, hex_value c, hex_value d with
  | Some x, Some y, Some z, Some w => Some (x * 4096 + y * 256 + z * 16 + w)%N
  | _, _, _, _ => None
  end.

(** The code unit of a two-character escape. *)
Definition simple_escape (e : code_unit) : option code_unit :=
  if N.eqb e (dquote) then Some (dquote)
  else if N.eqb e (backslash) then Some (backslash)
  else if N.eqb e (ch "/") then Some (ch "/")
  else if N.eqb e (ch "b") then Some 8%N
  else if N.eqb e (ch "f") then Some 12%N
  else if N.eqb e (ch "n") then Some 10%N
  else if N.eqb e (ch "r") then Some 13%N
  else if N.eqb e (ch "t") then Some 9%N
  else None.

Definition cons_fst {A B} (a : A) (r : option (list A * B)) : option (list A * B) :=
  match r with
  | Some (l, b) => Some (a :: l, b)
  | None => None
  end.

(** A string after its opening quote: the code units up to the closing
    quote, and the text after it. *)
Fixpoint parse_string_body (s : jsstring) : option (jsstring * jsstring) :=
  match s with
  | [] => None
  | c :: r =>
      if N.eqb c dquote then Some ([], r)
      else if N.eqb c backslash then
        match r with
        | [] => None
        | e :: r1 =>
            if N.eqb e (ch "u") then
              match r1 with
              | h1 :: h2 :: h3 :: h4 :: r2 =>
                  match hex4 h1 h2 h3 h4 with
                  | Some u => cons_fst u (parse_string_body r2)
                  | None => None
                  end
              | _ => None
              end
            else
              match simple_escape e with
              | Some x => cons_fst x (parse_string_body r1)
              | None => None
              end
        end
      else if (c <? 32)%N then None
      else cons_fst c (parse_string_body r)
  end.

Fixpoint span_digits (s : jsstring) : jsstring * jsstring :=
  match s with
  | c :: r => if is_digit c then let '(ds, r') := span_digits r in (c :: ds, r')
              else ([], s)
  | [] => ([], [])
  end.

Definition digits_N (ds : jsstring) : N :=
  fold_left (fun acc c => (10 * acc + (c - ch "0"))%N) ds 0%N.

(** The integer part: a single [0], or a digit [1-9] and more digits. *)
Definition parse_int_part (s : jsstring) : option (jsstring * jsstring) :=
  match s with
  | c :: r =>
      if N.eqb c (ch "0") then Some ([c], r)
      else if is_digit c then Some (span_digits s)
      else None
  | [] => None
  end.

Definition parse_frac_part (s : jsstring) : option (jsstring * jsstring) :=
  match s with
  | c :: r =>
      if N.eqb c (ch ".") then
        match span_digits r with
        | ([], _) => None
        | (ds, r') => Some (ds, r')
        end
      else Some ([], s)
  | [] => Some ([], s)
  end.

Definition parse_exp_part (s : jsstring) : option (Z * jsstring) :=
  match s with
  | c :: r =>
      if N.eqb c (ch "e") || N.eqb c (ch "E") then
        let '(neg, r1) :=
          match r with
          | sg :: r' => if N.eqb sg (ch "-") then (true, r')
                        else if N.eqb sg (ch "+") then (false, r')
                        else (false, r)
          | [] => (false, r)
          end in
        match span_digits r1 with
        | ([], _) => None
        | (ds, r2) =>
            let e := Z.of_N (digits_N ds) in
            Some (if neg then (- e)%Z else e, r2)
        end
      else Some (0%Z, s)
  | [] => Some (0%Z, s)
  end.

Definition parse_number (s : jsstring) : option (number * jsstring) :=
  let '(neg, s1) :=
    match s with
    | c :: r => if N.eqb c (ch "-") then (true, r) else (false, s)
    | [] => (false, s)
    end in
  match parse_int_part s1 with
  | None => None
  | Some (ip, s2) =>
      match parse_frac_part s2 with
      | None => None
      | Some (fp, s3) =>
          match parse_exp_part s3 with
          | None => None
          | Some (ex, s4) =>
              Some (number_of_decimal neg (digits_N (ip ++ fp))
                      (ex - Z.of_nat (length fp)), s4)
          end
      end
  end.

Fixpoint strip_prefix (p s : jsstring) : option jsstring :=
  match p, s with
  | [], _ => Some s
  | a :: p', b :: s' => if N.eqb a b then strip_prefix p' s' else None
  | _ :: _, [] => None
  end.

(** A value that is not an array or an object, at the head of [s]. *)
Definition parse_scalar (s : jsstring) : option (value * jsstring) :=
  match s with
  | [] => None
  | c :: r =>
      if N.eqb c dquote then
        match parse_string_body r with
        | Some (str, r') => Some (VStr str, r')
        | None => None
        end
      else if N.eqb c (ch "t") then
        option_map (fun r' => (VBool true, r')) (strip_prefix (js "true") s)
      else if N.eqb c (ch "f") then
        option_map (fun r' => (VBool false, r')) (strip_prefix (js "false") s)
      else if N.eqb c (ch "n") then
        option_map (fun r' => (VNull, r')) (strip_prefix (js "null") s)
      else
        option_map (fun '(n, r') => (VNum n, r')) (parse_number s)
  end.

(** Recursive descent.  Each function is given a text that starts at a
    token, and returns the text after the value.  [fuel] bounds the number of
    nested and successive calls; a call uses up at least one code unit, so
    the length of the text is fuel enough (lemma [JSON_parse_fuel]). *)
Fixpoint parse_value (fuel : nat) (s : jsstring) : option (value * jsstring) :=
  match fuel with
  | O => None
  | S fuel' =>
      match s with
      | [] => None
      | c :: r =>
          if N.eqb c (ch "[") then
            match skip_ws r with
            | [] => None
            | c' :: r' =>
                if N.eqb c' (ch "]") then Some (VArr [], r')
                else parse_elements fuel' (c' :: r') []
            end
          else if N.eqb c (ch "{") then
            match skip_ws r with
            | [] => None
            | c' :: r' =>
                if N.eqb c' (ch "}") then Some (VObj [], r')
                else parse_members fuel' (c' :: r') []
            end
          else parse_scalar s
      end
  end

with parse_elements (fuel : nat) (s : jsstring) (acc : list value)
    : option (value * jsstring) :=
  match fuel with
  | O => None
  | S fuel' =>
      match parse_value fuel' s with
      | None => None
      | Some (v, r) =>
          match skip_ws r with
          | [] => None
          | c :: r' =>
              if N.eqb c (ch ",") then parse_elements fuel' (skip_ws r') (acc ++ [v])
              else if N.eqb c (ch "]") then Some (VArr (acc ++ [v]), r')
              else None
          end
      end
  end

with parse_members (fuel : nat) (s : jsstring) (acc : list (jsstring * value))
    : option (value * jsstring) :=
  match fuel with
  | O => None
  | S fuel' =>
      match s with
      | [] => None
      | q :: r0 =>
          if negb (N.eqb q (dquote)) then None else
          match parse_string_body r0 with
          | None => None
          | Some (k, r1) =>
              match skip_ws r1 with
              | [] => None
              | c :: r2 =>
                  if negb (N.eqb c (ch ":")) then None else
                  match parse_value fuel' (skip_ws r2) with
                  | None => None
                  | Some (v, r3) =>
                      match skip_ws r3 with
                      | [] => None
                      | c' :: r4 =>
                          if N.eqb c' (ch ",") then
                            parse_members fuel' (skip_ws r4) (set_prop acc k v)
                          else if N.eqb c' (ch "}") then
                            Some (VObj (set_prop acc k v), r4)
                          else None
                      end
                  end
              end
          end
      end
  end.

Definition JSON_parse (text : jsstring) : option value :=
  match parse_value (S (length text)) (skip_ws text) with
  | Some (v, r) => match skip_ws r with [] => Some v | _ => None end
  | None => None
  end.

(** ** Array methods *)

(** The callbacks are given the index of the element and the element, and
    can throw. *)

(** [xs.map(f)], counted from [i]. *)
Fixpoint Array_map_from (i : nat) (f : nat -> value -> res value) (xs : list value)
    : res (list value) :=
  match xs with
  | [] => Ok []
  | x :: xs' => y <- f i x ;; ys <- Array_map_from (S i) f xs' ;; Ok (y :: ys)
  end.

Definition Array_map := Array_map_from 0.

(** [xs.filter(p)], counted from [i]. *)
Fixpoint Array_filter_from (i : nat) (p : nat -> value -> res bool) (xs : list value)
    : res (list value) :=
  match xs with
  | [] => Ok []
  | x :: xs' =>
      b <- p i x ;; ys <- Array_filter_from (S i) p xs' ;; Ok (if b then x :: ys else ys)
  end.

Definition Array_filter := Array_filter_from 0.

(** [xs.findIndex(p)], counted from [i]: the callback is not run past the
    first hit, and [-1] is the answer when there is none. *)
Fixpoint Array_findIndex_from (i : nat) (p : nat -> value -> res bool) (xs : list value)
    : res Z :=
  match xs with
  | [] => Ok (-1)%Z
  | x :: xs' =>
      b <- p i x ;;
      if b then Ok (Z.of_nat i) else Array_findIndex_from (S i) p xs'
  end.

Definition Array_findIndex := Array_findIndex_from 0.

(** A loop over the elements for what it throws, as [xs.map(f)] whose result
    is only handed on. *)
Fixpoint Array_each_from (i : nat) (f : nat -> value -> res unit) (xs : list value)
    : res unit :=
  match xs with
  | [] => Ok tt
  | x :: xs' => _ <- f i x ;; Array_each_from (S i) f xs'
  end.

Definition Array_each := Array_each_from 0.

(** The start position [Array.prototype.splice] computes from its first
    argument: from the end when negative, clamped to the array. *)
Definition splice_start (len start : Z) : nat :=
  Z.to_nat (if (start <? 0)%Z then Z.max (len + start) 0 else Z.min start len).

(** [@dnd-kit/sortable]:
<<
    function arrayMove(array, from, to) {
      const newArray = array.slice();
      newArray.splice(
        to < 0 ? newArray.length + to : to,
        0,
        newArray.splice(from, 1)[0]
      );
      return newArray;
    }
>>
    The first argument of the outer [splice] is evaluated before the inner
    [splice] shortens the array; [[0]] of an empty array is [undefined]. *)
Definition arrayMove (array : list value) (from to : Z) : list value :=
  let len := Z.of_nat (length array) in
  let target := if (to <? 0)%Z then (len + to)%Z else to in
  let start1 := splice_start len from in
  let removed := firstn 1 (skipn start1 array) in
  let rest := firstn start1 array ++ skipn (start1 + length removed) array in
  let item := nth 0 removed VUndef in
  let start2 := splice_start (Z.of_nat (length rest)) target in
  firstn start2 rest ++ item :: skipn start2 rest.

(** ** String methods of [downloadJson] *)

(** Whether a code unit matches [/[^a-z0-9]/i].  Without the [u] flag the
    match is by code unit, and case is ignored by comparing upper-case
    forms, where a code unit above 127 is never identified with one below
    128: the class [a-z0-9] then holds the ASCII letters of both cases and
    the digits, and the negated class everything else. *)
Definition matches_non_alnum (c : code_unit) : bool :=
  negb (is_lower c || is_upper c || is_digit c).

(** [s.replace(/[^a-z0-9]/gi, '_')] *)
Definition replace_non_alnum (s : jsstring) : jsstring :=
  map (fun c => if matches_non_alnum c then ch "_" else c) s.

(** [toLowerCase] on a string of code units below 128, which is what
    [replace_non_alnum] returns: the letters [A-Z] move to [a-z]. *)
Definition toLowerCase_ascii (s : jsstring) : jsstring :=
  map (fun c => if is_upper c then (c + 32)%N else c) s.

(** ** The component state *)

Record State := mkState {
  title : value;
  links : list value;
  isJsonOpen : bool;
  isReadOnly : bool;
  jsonString : jsstring;
  jsonError : option jsstring
}.

(** The arguments of the [useState] calls. *)
Definition initial_links : list LinkItem :=
  [mkLink (js "1") (js "Google") (js "https://google.com");
   mkLink (js "2") (js "GitHub") (js "https://github.com")].

Definition initial_state : State :=
  {| title := VStr (js "My Useful Links");
     links := map link_value initial_links;
     isJsonOpen := false;
     isReadOnly := false;
     jsonString := [];
     jsonError := None |}.

(** What a handler does, in order: calls of the state setters, of [alert],
    and the reset of the file input. *)
Inductive Cmd :=
| SetTitle (v : value)
| SetLinks (items : list value)
| SetIsJsonOpen (b : bool)
| SetIsReadOnly (b : bool)
| SetJsonString (str : jsstring)
| SetJsonError (err : option jsstring)
| Alert (msg : jsstring)
| ClearFileInput.

Definition apply_cmd (s : State) (c : Cmd) : State :=
  match c with
  | SetTitle v => mkState v (links s) (isJsonOpen s) (isReadOnly s) (jsonString s) (jsonError s)
  | SetLinks l => mkState (title s) l (isJsonOpen s) (isReadOnly s) (jsonString s) (jsonError s)
  | SetIsJsonOpen b => mkState (title s) (links s) b (isReadOnly s) (jsonString s) (jsonError s)
  | SetIsReadOnly b => mkState (title s) (links s) (isJsonOpen s) b (jsonString s) (jsonError s)
  | SetJsonString str => mkState (title s) (links s) (isJsonOpen s) (isReadOnly s) str (jsonError s)
  | SetJsonError err => mkState (title s) (links s) (isJsonOpen s) (isReadOnly s) (jsonString s) err
  | Alert _ | ClearFileInput => s
  end.

Definition commit (s : State) (cmds : list Cmd) : State := fold_left apply_cmd cmds s.

(** *** Handlers *)

(** [setLinks((items) => [...items, newLink])], with [uuid] the result of
    [crypto.randomUUID()]. *)
Definition addLink (uuid : jsstring) (s : State) : res (list Cmd) :=
  let newLink := link_value (mkLink uuid [] []) in
  Ok [SetLinks (links s ++ [newLink])].

(** [{ ...link, [field]: value }] *)
Definition with_field (link : value) (f : field) (v : jsstring) : value :=
  VObj (set_prop (spread_props link) (field_name f) (VStr v)).

(** [setLinks((items) => items.map(link =>
       link.id === id ? { ...link, [field]: value } : link))] *)
Definition updateLink (id : Id) (f : field) (v : jsstring) (s : State)
    : res (list Cmd) :=
  items <- Array_map (fun row link =>
             lid <- get link (js "id") ;;
             Ok (if same_id row lid id then with_field link f v else link))
           (links s) ;;
  Ok [SetLinks items].

(** [setLinks((items) => items.filter(link => link.id !== id))] *)
Definition removeLink (id : Id) (s : State) : res (list Cmd) :=
  items <- Array_filter (fun row link =>
             lid <- get link (js "id") ;;
             Ok (negb (same_id row lid id)))
           (links s) ;;
  Ok [SetLinks items].

(** [handleDragEnd]: [active] is [event.active.id], [over] is [event.over],
    [null] or a droppable with its id.  The ids dnd-kit reports are those
    given to [useSortable], the [link.id] of the rows. *)
Definition handleDragEnd (active : Id) (over : option Id) (s : State)
    : res (list Cmd) :=
  match over with
  | Some over_id =>
      if negb (Id_equal active over_id) then
        let has_id id := fun row item =>
          iid <- get item (js "id") ;; Ok (same_id row iid id) in
        oldIndex <- Array_findIndex (has_id active) (links s) ;;
        newIndex <- Array_findIndex (has_id over_id) (links s) ;;
        Ok [SetLinks (arrayMove (links s) oldIndex newIndex)]
      else Ok []
  | None => Ok []
  end.

(** The elements of an array value. *)
Definition elements (v : value) : list value :=
  match v with VArr xs => xs | _ => [] end.

(** [parsed && typeof parsed === 'object' && Array.isArray(parsed.items)]:
    the first two conjuncts rule out [null], so that reading [parsed.items],
    and [parsed.title] after it, does not throw. *)
Definition has_items (parsed : value) : bool :=
  truthy parsed && typeof_object parsed && Array_isArray (prop parsed (js "items")).

(** [handleJsonChange], for [e.target.value = newValue]. *)
Definition handleJsonChange (newValue : jsstring) (s : State) : res (list Cmd) :=
  if isReadOnly s then Ok [] else
  Ok (SetJsonString newValue ::
      match JSON_parse newValue with
      | Some parsed =>
          if Array_isArray parsed then
            [SetLinks (elements parsed); SetJsonError None]
          else if has_items parsed then
            SetLinks (elements (prop parsed (js "items")))
            :: (if truthy (prop parsed (js "title"))
                then [SetTitle (prop parsed (js "title"))] else [])
            ++ [SetJsonError None]
          else
            [SetJsonError
               (Some (js "Invalid format: Expected array or { title, items: [] }"))]
      | None => [SetJsonError (Some (js "Invalid JSON syntax"))]
      end).

(** The body of [reader.onload] in [uploadJson], for a file read as [text].
    ([uploadJson] itself returns at once when no file was chosen.) *)
Definition uploadJson (text : jsstring) (s : State) : res (list Cmd) :=
  Ok match JSON_parse text with
     | Some parsed =>
         if Array_isArray parsed then
           [SetLinks (elements parsed); SetTitle (VStr (js "Imported List")); ClearFileInput]
         else if has_items parsed then
           [SetLinks (elements (prop parsed (js "items")));
            SetTitle (js_or (prop parsed (js "title")) (VStr (js "Untitled List")));
            ClearFileInput]
         else [Alert (js "File is not a valid LinkList file.")]
     | None => [Alert (js "Error parsing JSON file.")]
     end.

(** What [downloadJson] hands to the browser: the text behind the data URL
    (before [encodeURIComponent]) and the [download] attribute. *)
Record Download := mkDownload { file_text : jsstring; file_name : jsstring }.

(** [`${title.replace(/[^a-z0-9]/gi, '_').toLowerCase() || 'links'}.json`];
    a title that is not a string has no [replace] method. *)
Definition download_name (title : value) : res jsstring :=
  match title with
  | VStr t =>
      let base := toLowerCase_ascii (replace_non_alnum t) in
      Ok ((match base with [] => js "links" | _ => base end) ++ js ".json")
  | _ => Throw TypeError
  end.

Definition downloadJson (s : State) : res Download :=
  let dataStr := JSON_stringify_data (title s) (links s) in
  name <- download_name (title s) ;;
  Ok (mkDownload dataStr name).

(** *** The effect

<<
    useEffect(() => {
      mounted.current = true;
      if (!isJsonOpen) {
        const data = { title: title, items: links };
        setJsonString(JSON.stringify(data, null, 2));
      }
      return () => { mounted.current = false; };
    }, [links, title, isJsonOpen]);
>>
    The ref [mounted] is read nowhere and is left out. *)
Definition sync_effect (s : State) : list Cmd :=
  if negb (isJsonOpen s)
  then [SetJsonString (JSON_stringify_data (title s) (links s))]
  else [].

(** Object.is on the title, as far as the dependency check needs it: two
    strings are compared by content.  A title that is not a string is only
    ever set by [handleJsonChange] and [uploadJson], next to a [setLinks]
    that changes the dependencies by itself, so it is taken as changed. *)
Definition same_title (a b : value) : bool :=
  match a, b with
  | VStr x, VStr y => str_eqb x y
  | _, _ => false
  end.

(** Whether a dependency of the effect changed: [setLinks] is always given
    a new array, the other two cells hold primitives. *)
Definition deps_changed (s : State) (cmds : list Cmd) : bool :=
  existsb (fun c =>
    match c with
    | SetLinks _ => true
    | SetTitle v => negb (same_title (title s) v)
    | SetIsJsonOpen b => negb (Bool.eqb b (isJsonOpen s))
    | _ => false
    end) cmds.

(** *** What a render throws

    A state is shown by calling [App], which builds an element for every
    link, and then, as React works down the tree, [SortableLinkRow] for
    every link.  The page has no error boundary: when one of them throws,
    or React refuses what they return, the tree is unmounted and there is
    no next state.  With the values [JSON.parse] can put into [links] and
    [title], this happens
    - in [App], which reads [link.id] of every element for the [key], and in
      React, which turns the key into a string;
    - in React, which turns the [value] of an [<input>] into a string, and
      refuses a plain object as a child;
    - in [SortableLinkRow] in read-only mode, which calls
      [link.url.startsWith] on every truthy url.
    The text buffer and the error are strings and throw nothing. *)

(** Whether React renders a value as a child: strings and numbers are
    text, booleans, [null] and [undefined] render nothing, an array renders
    its elements, and a plain object is refused. *)
Fixpoint valid_child (v : value) : bool :=
  match v with
  | VObj _ => false
  | VArr xs =>
      (fix all_valid (xs : list value) : bool :=
         match xs with
         | [] => true
         | x :: xs' => valid_child x && all_valid xs'
         end) xs
  | _ => true
  end.

(** A child [{v}]: React throws "Objects are not valid as a React child". *)
Definition React_child (v : value) : res unit :=
  if valid_child v then Ok tt else Throw Error.

(** [key={v}] and [<input value={v}>]: the conversion ['' + v].  ([null] and
    [undefined] are not always converted, and convert without throwing.) *)
Definition React_string (v : value) : res unit :=
  match ToString v with
  | Some _ => Ok tt
  | None => Throw TypeError
  end.

(** What [SortableLinkRow] and its elements throw:
<<
    useSortable({ id: link.id, disabled: isReadOnly })
    {isReadOnly ? <div>{link.label || <span>No Label</span>}</div>
                : <input value={link.label} ... />}
    {isReadOnly ? (link.url ? <a href={link.url.startsWith('http') ? ...}>{link.url}</a>
                            : <span>No URL</span>)
                : <input value={link.url} ... />}
>>
    The call of [startsWith] is part of the function body and comes before
    React looks at the children.  A truthy url that is not a string has no
    callable [startsWith]. *)
Definition SortableLinkRow_render (isReadOnly : bool) (link : value) : res unit :=
  _ <- get link (js "id") ;;
  if isReadOnly then
    _ <- (if truthy (prop link (js "url")) then
            match prop link (js "url") with
            | VStr _ => Ok tt
            | _ => Throw TypeError
            end
          else Ok tt) ;;
    if truthy (prop link (js "label")) then React_child (prop link (js "label"))
    else Ok tt
  else
    _ <- React_string (prop link (js "label")) ;;
    React_string (prop link (js "url")).

(** What a render of [App] throws:
<<
    {isReadOnly ? <h2>{title || "Untitled List"}</h2> : <input value={title} ... />}
    {links.map((link, index) => <SortableLinkRow key={link.id} link={link} ... />)}
>>
    The elements of the rows are built, with their keys, while [App] runs;
    the title and the rows are worked on after it has returned. *)
Definition title_render (isReadOnly : bool) (title : value) : res unit :=
  if isReadOnly then
    if truthy title then React_child title else Ok tt
  else React_string title.

Definition App_render (s : State) : res unit :=
  _ <- Array_each (fun _ link => k <- get link (js "id") ;; React_string k) (links s) ;;
  _ <- title_render (isReadOnly s) (title s) ;;
  Array_each (fun _ link => SortableLinkRow_render (isReadOnly s) link) (links s).

(** The state can be shown. *)
Definition renders (s : State) : Prop := App_render s = Ok tt.

(** *** Events

    The events of a row carry the id the row hands to its handler. *)

Inductive Event :=
| ClickAdd (uuid : jsstring)
| EditField (id : Id) (f : field) (v : jsstring)
| ClickRemove (id : Id)
| DragEnd (active : Id) (over : option Id)
| EditTitle (v : jsstring)
| EditJson (text : jsstring)
| ToggleJson
| ToggleReadOnly
| FileLoaded (text : jsstring)
| ClickSave.

Definition handle (s : State) (e : Event) : res (list Cmd) :=
  match e with
  | ClickAdd uuid => addLink uuid s
  | EditField id f v => updateLink id f v s
  | ClickRemove id => removeLink id s
  | DragEnd active over => handleDragEnd active over s
  | EditTitle v => Ok [SetTitle (VStr v)]
  | EditJson text => handleJsonChange text s
  | ToggleJson => Ok [SetIsJsonOpen (negb (isJsonOpen s))]
  | ToggleReadOnly => Ok [SetIsReadOnly (negb (isReadOnly s))]
  | FileLoaded text => uploadJson text s
  | ClickSave => _ <- downloadJson s ;; Ok []
  end.

(** Whether a handler called one of the state setters: React renders again
    only then. *)
Definition calls_setter (cmds : list Cmd) : bool :=
  existsb (fun c =>
    match c with
    | Alert _ | ClearFileInput => false
    | _ => true
    end) cmds.

(** One event: the handler's updates are committed and, when a setter was
    called, the page is rendered again; the effect runs after the render if
    one of its dependencies changed.  (The render that follows the effect
    differs in the text buffer only, and throws nothing new.)  [Throw] is an
    exception that escapes the handler, an updater or the render: the page
    is gone and there is no next state. *)
Definition step (s : State) (e : Event) : res State :=
  cmds <- handle s e ;;
  let s1 := commit s cmds in
  _ <- (if calls_setter cmds then App_render s1 else Ok tt) ;;
  Ok (if deps_changed s cmds then commit s1 (sync_effect s1) else s1).

(** The state after the first render: the effect runs once on mount. *)
Definition mounted_state : State := commit initial_state (sync_effect initial_state).

(** ** The rendered controls

    The part of the JSX that decides whether a handler can be reached: which
    inputs and buttons are mounted, and the [readOnly] and [disabled] flags
    passed down. *)

Record RowView := mkRow {
  row_link : value;
  row_index : nat;            (* index={index} *)
  sortable_disabled : bool;   (* useSortable({ id: link.id, disabled: isReadOnly }) *)
  drag_handle : bool;         (* {!isReadOnly && <div {...listeners}>} *)
  label_input : bool;         (* isReadOnly ? <div> : <input onChange=...> *)
  url_input : bool;
  remove_button : bool        (* {!isReadOnly && <button onClick=...>} *)
}.

Definition SortableLinkRow (isReadOnly : bool) (index : nat) (link : value) : RowView :=
  {| row_link := link;
     row_index := index;
     sortable_disabled := isReadOnly;
     drag_handle := negb isReadOnly;
     label_input := negb isReadOnly;
     url_input := negb isReadOnly;
     remove_button := negb isReadOnly |}.

Record View := mkView {
  title_input : bool;         (* isReadOnly ? <h2> : <input onChange=...> *)
  rows : list RowView;
  add_button : bool;          (* {!isReadOnly && <button onClick={addLink}>} *)
  textarea_value : jsstring;
  textarea_readOnly : bool    (* readOnly={isReadOnly} *)
}.

(** [links.map((link, index) => <SortableLinkRow ... />)], counted from [i]. *)
Fixpoint rows_from (i : nat) (isReadOnly : bool) (xs : list value) : list RowView :=
  match xs with
  | [] => []
  | x :: xs' => SortableLinkRow isReadOnly i x :: rows_from (S i) isReadOnly xs'
  end.

(** The controls of the tree [App] returns, when its render does not throw
    ([App_render]). *)
Definition render (s : State) : View :=
  {| title_input := negb (isReadOnly s);
     rows := rows_from 0 (isReadOnly s) (links s);
     add_button := negb (isReadOnly s);
     textarea_value := jsonString s;
     textarea_readOnly := isReadOnly s |}.

(** The id a row hands out, [link.id]. *)
Definition row_id (r : RowView) : Id := id_of_row (row_index r) (row_link r).

Definition row_has_id (id : Id) (r : RowView) : bool := Id_equal (row_id r) id.

(** Whether the rendered tree lets the user raise an event: a change event
    needs a mounted input that is not [readOnly], a click a mounted button,
    a drag a mounted handle on a sortable that is not disabled, and the
    event of a row carries the id of that row, of whatever type it is.  The
    drop target of a drag is left open.  The textarea, the toggles, Load and
    Save are mounted in every state. *)
Definition can_dispatch (v : View) (e : Event) : bool :=
  match e with
  | ClickAdd _ => add_button v
  | EditField id Label _ => existsb (fun r => row_has_id id r && label_input r) (rows v)
  | EditField id Url _ => existsb (fun r => row_has_id id r && url_input r) (rows v)
  | ClickRemove id => existsb (fun r => row_has_id id r && remove_button r) (rows v)
  | DragEnd active _ =>
      existsb (fun r => row_has_id active r && drag_handle r && negb (sortable_disabled r))
              (rows v)
  | EditTitle _ => title_input v
  | EditJson _ => negb (textarea_readOnly v)
  | ToggleJson | ToggleReadOnly | FileLoaded _ | ClickSave => true
  end.


(** ** What the claims are compared with *)

(** The shape of an accepted text: an array, or an object whose [items]
    field is an array. *)
Definition accepted_items (v : value) : option (list value) :=
  match v with
  | VArr xs => Some xs
  | VObj ps =>
      match lookup (js "items") ps with
      | Some (VArr xs) => Some xs
      | _ => None
      end
  | _ => None
  end.

(** The items a text stands for, when it parses and has that shape. *)
Definition accepted (text : jsstring) : option (list value) :=
  match JSON_parse text with
  | Some v => accepted_items v
  | None => None
  end.

(** A link item with one field changed. *)
Definition set_field (f : field) (v : jsstring) (l : LinkItem) : LinkItem :=
  match f with
  | Label => mkLink (id l) v (url l)
  | Url => mkLink (id l) (label l) v
  end.

(** The position of the first item with a given id. *)
Fixpoint index_of (i : jsstring) (L : list LinkItem) : option nat :=
  match L with
  | [] => None
  | l :: L' => if str_eqb (id l) i then Some 0 else option_map S (index_of i L')
  end.

Definition remove_at {A} (n : nat) (l : list A) : list A := firstn n l ++ skipn (S n) l.

(** A state whose title is a string and whose links are link items. *)
Definition typed_state (T : jsstring) (L : list LinkItem) (s : State) : State :=
  mkState (VStr T) (map link_value L) (isJsonOpen s) (isReadOnly s) (jsonString s) (jsonError s).

(** The JSON text buffer mirrors the structured state. *)
Definition in_sync (s : State) : Prop :=
  jsonString s = JSON_stringify_data (title s) (links s).

(** The handler of an event calls [setLinks]. *)
Definition sets_links (s : State) (e : Event) : bool :=
  match handle s e with
  | Ok cmds => existsb (fun c => match c with SetLinks _ => true | _ => false end) cmds
  | Throw _ => false
  end.

(** The events that edit: field edits, add and remove, drag, typing in the
    JSON editor. *)
Definition is_edit (e : Event) : bool :=
  match e with
  | ClickAdd _ | EditField _ _ _ | ClickRemove _ | DragEnd _ _ | EditTitle _ | EditJson _ => true
  | ToggleJson | ToggleReadOnly | FileLoaded _ | ClickSave => false
  end.

(** The title an accepted edit leaves: [parsed.title] when it is truthy. *)
Definition edited_title (parsed : value) (old : value) : value :=
  if Array_isArray parsed then old
  else if truthy (prop parsed (js "title")) then prop parsed (js "title") else old.

(** The title an accepted file leaves. *)
Definition uploaded_title (parsed : value) : value :=
  if Array_isArray parsed then VStr (js "Imported List")
  else js_or (prop parsed (js "title")) (VStr (js "Untitled List")).

(** The mounted component after a click on the read-only toggle. *)
Definition locked_state : State := commit mounted_state [SetIsReadOnly true].

(** The mounted component after a click on the drawer handle. *)
Definition opened_state : State := commit mounted_state [SetIsJsonOpen true].

(** The character of the file name for a code unit of the title. *)
Definition name_unit (c : code_unit) : code_unit :=
  if is_upper c then (c + 32)%N
  else if is_lower c || is_digit c then c
  else ch "_".

(** *** The serialisation of a string title and link items

    The text [JSON.stringify] lays out for [{ title: T, items: L }], each
    piece written in front of the text that follows it. *)

Definition quoted (s rest : jsstring) : jsstring :=
  dquote :: quote_body s ++ dquote :: rest.

Definition item_text (l : LinkItem) (rest : jsstring) : jsstring :=
  js "{" ++ ch "010" :: js "      " ++
  quoted (js "id") (js ": " ++ quoted (id l) (js "," ++ ch "010" :: js "      " ++
  quoted (js "label") (js ": " ++ quoted (label l) (js "," ++ ch "010" :: js "      " ++
  quoted (js "url") (js ": " ++ quoted (url l) (ch "010" :: js "    }" ++ rest)))))).

Fixpoint items_tail (l : LinkItem) (L : list LinkItem) (rest : jsstring) : jsstring :=
  item_text l
    match L with
    | [] => ch "010" :: js "  ]" ++ rest
    | l' :: L' => js "," ++ ch "010" :: js "    " ++ items_tail l' L' rest
    end.

Definition items_text (L : list LinkItem) (rest : jsstring) : jsstring :=
  match L with
  | [] => js "[]" ++ rest
  | l :: L' => js "[" ++ ch "010" :: js "    " ++ items_tail l L' rest
  end.

Definition data_text (T : jsstring) (L : list LinkItem) : jsstring :=
  js "{" ++ ch "010" :: js "  " ++
  quoted (js "title") (js ": " ++ quoted T (js "," ++ ch "010" :: js "  " ++
  quoted (js "items") (js ": " ++ items_text L (ch "010" :: js "}")))).

(** ** The read-only row and heading

    What [SortableLinkRow] and [App] show in place of the inputs when
    [isReadOnly] holds, for a link item and a string title. *)

(** [s.startsWith(p)] *)
Definition startsWith (s p : jsstring) : bool :=
  match strip_prefix p s with Some _ => true | None => false end.

(** [link.url.startsWith('http') ? link.url : `https://${link.url}`] *)
Definition link_href (url : jsstring) : jsstring :=
  if startsWith url (js "http") then url else js "https://" ++ url.

(** The URL cell: [link.url ? <a href=...>{link.url}</a> : <span>No URL</span>]. *)
Inductive UrlCell :=
| Anchor (href text : jsstring)
| NoUrl.

Definition url_cell (l : LinkItem) : UrlCell :=
  match url l with
  | [] => NoUrl
  | u => Anchor (link_href u) u
  end.

(** The heading: [{title || "Untitled List"}]. *)
Definition heading (title : value) : value :=
  js_or title (VStr (js "Untitled List")).

(** ** More of what the proofs speak about *)

(** The state once the effect has run. *)
Definition settle (s : State) : State := commit s (sync_effect s).

(** The code units a file name is made of: [a-z], [0-9] and ['_']. *)
Definition is_name_unit (c : code_unit) : bool :=
  is_lower c || is_digit c || N.eqb c (ch "_").

(** A sequence of events, one [step] after the other. *)
Fixpoint run (s : State) (es : list Event) : res State :=
  match es with
  | [] => Ok s
  | e :: es' => s' <- step s e ;; run s' es'
  end.

(** The links a run ends with. *)
Definition links_of (r : res State) : res (list value) :=
  s <- r ;; Ok (links s).

(** Add, update and remove for a string id, told on link items. *)
Definition next_items (e : Event) (L : list LinkItem) : list LinkItem :=
  match e with
  | ClickAdd uuid => L ++ [mkLink uuid [] []]
  | EditField (IdVal (VStr i)) f v =>
      map (fun l => if str_eqb (id l) i then set_field f v l else l) L
  | ClickRemove (IdVal (VStr i)) => filter (fun l => negb (str_eqb (id l) i)) L
  | _ => L
  end.

(** The events whose handler is [addLink], or [updateLink] or [removeLink]
    with a string id. *)
Definition is_list_edit (e : Event) : bool :=
  match e with
  | ClickAdd _ | EditField (IdVal (VStr _)) _ _ | ClickRemove (IdVal (VStr _)) => true
  | _ => false
  end.

(** The events that carry a JSON text: typing in the editor, and a file
    that was read. *)
Definition is_text_input (e : Event) : bool :=
  match e with
  | EditJson _ | FileLoaded _ => true
  | _ => false
  end.

(** The index [findIndex] gives for an id: a position, or [-1]. *)
Definition found_index (i : jsstring) (L : list LinkItem) : Z :=
  match index_of i L with Some n => Z.of_nat n | None => (-1)%Z end.

(** * Proofs *)

Unset Implicit Arguments.

Arguments JSON_parse : simpl never.
Arguments JSON_stringify_data : simpl never.
Arguments App_render : simpl never.

(** Case analysis on the commands of a handler run in [step]. *)
Ltac handler_cases :=
  repeat match goal with
  | H : context [match ?x with _ => _ end] |- _ =>
      match type of x with
      | res _ => destruct x eqn:?
      | option _ => destruct x eqn:?
      | bool => destruct x eqn:?
      end; simpl in H
  | H : Ok _ = Ok _ |- _ => injection H as H; subst
  | H : Throw _ = Ok _ |- _ => discriminate H
  end.


Lemma str_eqb_refl (a : jsstring) : str_eqb a a = true.
Proof. induction a; simpl; [reflexivity|]. now rewrite N.eqb_refl. Qed.

Lemma str_eqb_eq (a b : jsstring) : str_eqb a b = true <-> a = b.
Proof.
  split; [|intros ->; apply str_eqb_refl].
  revert b; induction a as [|x a IH]; destruct b as [|y b]; simpl; try easy.
  intros H. apply andb_true_iff in H as [H1 H2].
  apply N.eqb_eq in H1. apply IH in H2. congruence.
Qed.

Lemma str_eqb_neq (a b : jsstring) : str_eqb a b = false <-> a <> b.
Proof.
  rewrite <- str_eqb_eq. destruct (str_eqb a b); split; congruence.
Qed.

(** ** The fuel of [JSON_parse]

    A successful call uses up code units, and then succeeds with the same
    result under any fuel that is at least the number it used: the length of
    the text is fuel enough, and more fuel changes nothing. *)

Lemma parse_value_S (f : nat) (s : jsstring) :
  parse_value (S f) s =
    match s with
    | [] => None
    | c :: r =>
        if N.eqb c (ch "[") then
          match skip_ws r with
          | [] => None
          | c' :: r' =>
              if N.eqb c' (ch "]") then Some (VArr [], r')
              else parse_elements f (c' :: r') []
          end
        else if N.eqb c (ch "{") then
          match skip_ws r with
          | [] => None
          | c' :: r' =>
              if N.eqb c' (ch "}") then Some (VObj [], r')
              else parse_members f (c' :: r') []
          end
        else parse_scalar s
    end.
Proof. reflexivity. Qed.

Lemma parse_elements_S (f : nat) (s : jsstring) (acc : list value) :
  parse_elements (S f) s acc =
    match parse_value f s with
    | None => None
    | Some (v, r) =>
        match skip_ws r with
        | [] => None
        | c :: r' =>
            if N.eqb c (ch ",") then parse_elements f (skip_ws r') (acc ++ [v])
            else if N.eqb c (ch "]") then Some (VArr (acc ++ [v]), r')
            else None
        end
    end.
Proof. reflexivity. Qed.

Lemma parse_members_S (f : nat) (s : jsstring) (acc : list (jsstring * value)) :
  parse_members (S f) s acc =
    match s with
    | [] => None
    | q :: r0 =>
        if negb (N.eqb q (dquote)) then None else
        match parse_string_body r0 with
        | None => None
        | Some (k, r1) =>
            match skip_ws r1 with
            | [] => None
            | c :: r2 =>
                if negb (N.eqb c (ch ":")) then None else
                match parse_value f (skip_ws r2) with
                | None => None
                | Some (v, r3) =>
                    match skip_ws r3 with
                    | [] => None
                    | c' :: r4 =>
                        if N.eqb c' (ch ",") then
                          parse_members f (skip_ws r4) (set_prop acc k v)
                        else if N.eqb c' (ch "}") then
                          Some (VObj (set_prop acc k v), r4)
                        else None
                    end
                end
            end
        end
    end.
Proof. reflexivity. Qed.

Lemma skip_ws_length (s : jsstring) : length (skip_ws s) <= length s.
Proof.
  induction s as [|c s IH]; [reflexivity|]. cbn [skip_ws].
  destruct (is_ws c); cbn [length]; lia.
Qed.

Lemma cons_fst_length {A B} (a : A) (o : option (list A * list B)) l r (n : nat) :
  cons_fst a o = Some (l, r) ->
  (forall l', o = Some (l', r) -> length r < n) ->
  length r < n.
Proof.
  destruct o as [[l' r']|]; [|discriminate]. cbn. intros H Hn.
  injection H as _ <-. eauto.
Qed.

Lemma parse_string_body_length_le (n : nat) :
  forall s k r, length s <= n ->
    parse_string_body s = Some (k, r) -> length r < length s.
Proof.
  induction n as [|n IH]; intros s k r Hn H.
  - destruct s; [discriminate|simpl in Hn; lia].
  - destruct s as [|c s]; [discriminate|]. cbn [parse_string_body] in H.
    cbn [length] in *.
    destruct (N.eqb c dquote); [injection H as _ <-; lia|].
    destruct (N.eqb c backslash).
    + destruct s as [|e s1]; [discriminate|]. cbn [length] in *.
      destruct (N.eqb e (ch "u")).
      * destruct s1 as [|h1 [|h2 [|h3 [|h4 s2]]]]; try discriminate.
        cbn [length] in *.
        destruct (hex4 h1 h2 h3 h4); [|discriminate].
        apply (cons_fst_length _ _ _ _ _ H). intros l' Hl'.
        apply IH in Hl'; lia.
      * destruct (simple_escape e); [|discriminate].
        apply (cons_fst_length _ _ _ _ _ H). intros l' Hl'.
        apply IH in Hl'; lia.
    + destruct (c <? 32)%N; [discriminate|].
      apply (cons_fst_length _ _ _ _ _ H). intros l' Hl'.
      apply IH in Hl'; lia.
Qed.

Lemma parse_string_body_length (s k r : jsstring) :
  parse_string_body s = Some (k, r) -> length r < length s.
Proof. apply (parse_string_body_length_le (length s)). lia. Qed.

Lemma span_digits_length (s : jsstring) :
  length (snd (span_digits s)) <= length s.
Proof.
  induction s as [|c s IH]; [reflexivity|]. cbn [span_digits].
  destruct (is_digit c); [|reflexivity].
  destruct (span_digits s) as [ds r]. cbn [snd length] in *. lia.
Qed.

Lemma strip_prefix_length (p s r : jsstring) :
  strip_prefix p s = Some r -> length r + length p = length s.
Proof.
  revert s. induction p as [|a p IH]; intros s H.
  - injection H as <-. cbn. lia.
  - destruct s as [|b s]; [discriminate|]. cbn [strip_prefix] in H.
    destruct (N.eqb a b); [|discriminate]. apply IH in H. cbn [length]. lia.
Qed.

Lemma parse_number_length (s : jsstring) (n : number) (r : jsstring) :
  parse_number s = Some (n, r) -> length r < length s.
Proof.
  unfold parse_number.
  assert (Hint : forall s1 ip s2, parse_int_part s1 = Some (ip, s2) -> length s2 < length s1).
  { intros [|c s1] ip s2; [discriminate|]. cbn [parse_int_part].
    destruct (N.eqb c (ch "0")); [intros H; injection H as _ <-; cbn; lia|].
    destruct (is_digit c) eqn:Ed; [|discriminate].
    cbn [span_digits]. rewrite Ed.
    pose proof (span_digits_length s1) as Hs.
    destruct (span_digits s1) as [ds r']. intros H. injection H as _ <-.
    cbn [snd length] in *. lia. }
  assert (Hfrac : forall s2 fp s3, parse_frac_part s2 = Some (fp, s3) -> length s3 <= length s2).
  { intros [|c s2] fp s3; cbn [parse_frac_part].
    - intros H. injection H as _ <-. lia.
    - destruct (N.eqb c (ch ".")).
      + pose proof (span_digits_length s2) as Hs.
        destruct (span_digits s2) as [[|d ds] r']; [discriminate|].
        intros H. injection H as _ <-. cbn [snd length] in *. lia.
      + intros H. injection H as _ <-. lia. }
  assert (Hexp : forall s3 ex s4, parse_exp_part s3 = Some (ex, s4) -> length s4 <= length s3).
  { intros [|c s3] ex s4; cbn [parse_exp_part].
    - intros H. injection H as _ <-. lia.
    - destruct (N.eqb c (ch "e") || N.eqb c (ch "E")).
      + destruct s3 as [|sg s3']; [cbn; discriminate|].
        destruct (N.eqb sg (ch "-")); [|destruct (N.eqb sg (ch "+"))];
          match goal with |- context [span_digits ?x] =>
            pose proof (span_digits_length x) as Hs;
            destruct (span_digits x) as [[|d ds] r2]
          end; try discriminate;
          intros H; injection H as _ <-; cbn [snd length] in *; lia.
      + intros H. injection H as _ <-. lia. }
  destruct s as [|c s0]; [discriminate|].
  destruct (N.eqb c (ch "-")).
  - destruct (parse_int_part s0) as [[ip s2]|] eqn:E1; [|discriminate].
    destruct (parse_frac_part s2) as [[fp s3]|] eqn:E2; [|discriminate].
    destruct (parse_exp_part s3) as [[ex s4]|] eqn:E3; [|discriminate].
    intros H. injection H as _ <-.
    apply Hint in E1. apply Hfrac in E2. apply Hexp in E3. cbn [length]. lia.
  - destruct (parse_int_part (c :: s0)) as [[ip s2]|] eqn:E1; [|discriminate].
    destruct (parse_frac_part s2) as [[fp s3]|] eqn:E2; [|discriminate].
    destruct (parse_exp_part s3) as [[ex s4]|] eqn:E3; [|discriminate].
    intros H. injection H as _ <-.
    apply Hint in E1. apply Hfrac in E2. apply Hexp in E3. lia.
Qed.

Lemma parse_scalar_length (s : jsstring) (v : value) (r : jsstring) :
  parse_scalar s = Some (v, r) -> length r < length s.
Proof.
  destruct s as [|c s0]; [discriminate|]. cbn [parse_scalar].
  destruct (N.eqb c dquote).
  { destruct (parse_string_body s0) as [[str r']|] eqn:E; [|discriminate].
    intros H. injection H as _ <-. apply parse_string_body_length in E.
    cbn [length]. lia. }
  assert (Hlit : forall p (w : value),
            option_map (fun r' => (w, r')) (strip_prefix (js p) (c :: s0)) = Some (v, r) ->
            js p <> [] -> length r < length (c :: s0)).
  { intros p w H Hp.
    destruct (strip_prefix (js p) (c :: s0)) as [r'|] eqn:E; [|discriminate].
    injection H as _ <-. apply strip_prefix_length in E.
    destruct (js p); [contradiction|]. cbn [length] in *. lia. }
  destruct (N.eqb c (ch "t")); [intros H; apply (Hlit _ _ H); discriminate|].
  destruct (N.eqb c (ch "f")); [intros H; apply (Hlit _ _ H); discriminate|].
  destruct (N.eqb c (ch "n")); [intros H; apply (Hlit _ _ H); discriminate|].
  destruct (parse_number (c :: s0)) as [[n r']|] eqn:E; [|discriminate].
  intros H. injection H as _ <-. now apply parse_number_length in E.
Qed.

Lemma parse_fuel_enough (f : nat) :
  (forall s v r, parse_value f s = Some (v, r) ->
     length r < length s /\
     forall f', length s - length r <= f' -> parse_value f' s = Some (v, r)) /\
  (forall s acc v r, parse_elements f s acc = Some (v, r) ->
     length r < length s /\
     forall f', length s - length r <= f' -> parse_elements f' s acc = Some (v, r)) /\
  (forall s acc v r, parse_members f s acc = Some (v, r) ->
     length r < length s /\
     forall f', length s - length r <= f' -> parse_members f' s acc = Some (v, r)).
Proof.
  induction f as [|f (IHv & IHe & IHm)].
  { repeat split; discriminate. }
  split; [|split].
  - intros s v r H. rewrite parse_value_S in H.
    destruct s as [|c r0]; [discriminate|].
    pose proof (skip_ws_length r0) as Hws.
    destruct (N.eqb c (ch "[")) eqn:Eb.
    { destruct (skip_ws r0) as [|c' r'] eqn:Es; [discriminate|].
      destruct (N.eqb c' (ch "]")) eqn:Ec.
      - injection H as <- <-. split; [cbn [length] in *; lia|].
        intros [|f'] Hf'; [cbn [length] in *; lia|].
        rewrite parse_value_S, Eb, Es, Ec. reflexivity.
      - apply IHe in H as [Hl Hf]. split; [cbn [length] in *; lia|].
        intros [|f'] Hf'; [cbn [length] in *; lia|].
        rewrite parse_value_S, Eb, Es, Ec. apply Hf. cbn [length] in *. lia. }
    destruct (N.eqb c (ch "{")) eqn:Eo.
    { destruct (skip_ws r0) as [|c' r'] eqn:Es; [discriminate|].
      destruct (N.eqb c' (ch "}")) eqn:Ec.
      - injection H as <- <-. split; [cbn [length] in *; lia|].
        intros [|f'] Hf'; [cbn [length] in *; lia|].
        rewrite parse_value_S, Eb, Eo, Es, Ec. reflexivity.
      - apply IHm in H as [Hl Hf]. split; [cbn [length] in *; lia|].
        intros [|f'] Hf'; [cbn [length] in *; lia|].
        rewrite parse_value_S, Eb, Eo, Es, Ec. apply Hf. cbn [length] in *. lia. }
    pose proof (parse_scalar_length _ _ _ H) as Hl. split; [exact Hl|].
    intros [|f'] Hf'; [lia|]. rewrite parse_value_S, Eb, Eo. exact H.
  - intros s acc v r H. rewrite parse_elements_S in H.
    destruct (parse_value f s) as [[v1 r1]|] eqn:Ev; [|discriminate].
    apply IHv in Ev as [Hl1 Hf1].
    pose proof (skip_ws_length r1) as Hws.
    destruct (skip_ws r1) as [|c r'] eqn:Es; [discriminate|].
    destruct (N.eqb c (ch ",")) eqn:Ec.
    + pose proof (skip_ws_length r') as Hws'.
      apply IHe in H as [Hl2 Hf2]. split; [cbn [length] in *; lia|].
      intros [|f'] Hf'; [cbn [length] in *; lia|].
      rewrite parse_elements_S, Hf1 by (cbn [length] in *; lia).
      rewrite Es, Ec. apply Hf2. cbn [length] in *. lia.
    + destruct (N.eqb c (ch "]")) eqn:Ec2; [|discriminate].
      injection H as <- <-. split; [cbn [length] in *; lia|].
      intros [|f'] Hf'; [cbn [length] in *; lia|].
      rewrite parse_elements_S, Hf1 by (cbn [length] in *; lia).
      rewrite Es, Ec, Ec2. reflexivity.
  - intros s acc v r H. rewrite parse_members_S in H.
    destruct s as [|q r0]; [discriminate|].
    destruct (negb (N.eqb q dquote)) eqn:Eq; [discriminate|].
    destruct (parse_string_body r0) as [[k r1]|] eqn:Ek; [|discriminate].
    pose proof (parse_string_body_length _ _ _ Ek) as Hk.
    pose proof (skip_ws_length r1) as Hws1.
    destruct (skip_ws r1) as [|c r2] eqn:Es1; [discriminate|].
    destruct (negb (N.eqb c (ch ":"))) eqn:Ec; [discriminate|].
    pose proof (skip_ws_length r2) as Hws2.
    destruct (parse_value f (skip_ws r2)) as [[v1 r3]|] eqn:Ev; [|discriminate].
    apply IHv in Ev as [Hl1 Hf1].
    pose proof (skip_ws_length r3) as Hws3.
    destruct (skip_ws r3) as [|c' r4] eqn:Es3; [discriminate|].
    destruct (N.eqb c' (ch ",")) eqn:Ec'.
    + pose proof (skip_ws_length r4) as Hws4.
      apply IHm in H as [Hl2 Hf2]. split; [cbn [length] in *; lia|].
      intros [|f'] Hf'; [cbn [length] in *; lia|].
      rewrite parse_members_S, Eq, Ek, Es1, Ec, Hf1 by (cbn [length] in *; lia).
      rewrite Es3, Ec'. apply Hf2. cbn [length] in *. lia.
    + destruct (N.eqb c' (ch "}")) eqn:Ec2; [|discriminate].
      injection H as <- <-. split; [cbn [length] in *; lia|].
      intros [|f'] Hf'; [cbn [length] in *; lia|].
      rewrite parse_members_S, Eq, Ek, Es1, Ec, Hf1 by (cbn [length] in *; lia).
      rewrite Es3, Ec', Ec2. reflexivity.
Qed.

(** [JSON_parse] with any larger fuel: the result is the same. *)
Lemma JSON_parse_fuel (text : jsstring) (f : nat) :
  length text < f ->
  match parse_value f (skip_ws text) with
  | Some (v, r) => match skip_ws r with [] => Some v | _ => None end
  | None => None
  end = JSON_parse text.
Proof.
  intros Hf. unfold JSON_parse.
  pose proof (skip_ws_length text) as Hws.
  destruct (parse_value f (skip_ws text)) as [[v r]|] eqn:E.
  - destruct (proj1 (parse_fuel_enough f) _ _ _ E) as [Hl He].
    rewrite (He (S (length text))) by lia. reflexivity.
  - destruct (parse_value (S (length text)) (skip_ws text)) as [[v r]|] eqn:E';
      [|reflexivity].
    destruct (proj1 (parse_fuel_enough _) _ _ _ E') as [Hl He].
    rewrite (He f) in E by lia. discriminate.
Qed.

(** ** The built-ins on examples *)

Example Number_toString_examples :
  map (fun '(d, e) => Number_toString (number_of_decimal false (Z.to_N d) e))
      [(1, -1); (1, 21); (1, -7); (1, -6); (123456789012345680000, 0);
       (9007199254740993, 0); (30000000000000004, -17); (15, 2); (25, -1)]%Z
  = [js "0.1"; js "1e+21"; js "1e-7"; js "0.000001"; js "123456789012345680000";
     js "9007199254740992"; js "0.30000000000000004"; js "1500"; js "2.5"].
Proof. vm_compute. reflexivity. Qed.

Example number_underflow_is_zero : number_of_decimal false 2 (-324) = NZero false.
Proof. vm_compute. reflexivity. Qed.

Example number_overflow_is_infinite : number_of_decimal true 2 308 = NInf true.
Proof. vm_compute. reflexivity. Qed.

(** A duplicate key keeps its first place and takes the last value; keys
    that are array indices come first, in ascending order. *)
Example JSON_parse_key_order :
  JSON_parse (js "{ 'b': 1, '10': 2, '2': 3, 'b': [true, null] }")
  = None /\
  JSON_parse (map (fun c => if N.eqb c (ch "'") then dquote else c)
                  (js "{ 'b': 1, '10': 2, '2': 3, 'b': [true, null] }"))
  = Some (VObj [(js "2", VNum (NFinite false 6755399441055744 (-51)));
                (js "10", VNum (NFinite false 4503599627370496 (-51)));
                (js "b", VArr [VBool true; VNull])]).
Proof. vm_compute. split; reflexivity. Qed.

Example JSON_parse_rejects :
  map JSON_parse [js "[1,]"; js "01"; js "1."; js "1e"; js "-"; js "tru"; js "[1 2]";
                  js ""; js "nulll"; js "{a:1}"; js "[] x"]
  = repeat None 11.
Proof. vm_compute. reflexivity. Qed.

Example JSON_parse_accepts :
  map JSON_parse [js " [ ] "; js "-0.0e-0"; js "null"; js "[[[[1e2]]]]"]
  = [Some (VArr []); Some (VNum (NZero true)); Some VNull;
     Some (VArr [VArr [VArr [VArr [VNum (NFinite false 7036874417766400 (-46))]]]])].
Proof. vm_compute. reflexivity. Qed.

(** [arrayMove] with an index [findIndex] did not find: [-1] takes the last
    element, and as a target puts the element last. *)
Example arrayMove_examples :
  arrayMove [VNull; VBool true; VBool false] 0 2 = [VBool true; VBool false; VNull] /\
  arrayMove [VNull; VBool true; VBool false] 2 0 = [VBool false; VNull; VBool true] /\
  arrayMove [VNull; VBool true; VBool false] (-1) 0 = [VBool false; VNull; VBool true] /\
  arrayMove [VNull; VBool true; VBool false] 0 (-1) = [VBool true; VBool false; VNull] /\
  arrayMove [] (-1) (-1) = [VUndef].
Proof. repeat split. Qed.

Example mounted_text_parses :
  JSON_parse (jsonString mounted_state)
  = Some (VObj [(js "title", VStr (js "My Useful Links"));
                (js "items", VArr (map link_value initial_links))]).
Proof. vm_compute. reflexivity. Qed.

(** ** What a render depends on *)

(** A render reads the title, the links and the mode. *)
Lemma App_render_cells (t : value) (l : list value) (r o o' : bool)
    (j j' : jsstring) (err err' : option jsstring) :
  App_render (mkState t l o r j err) = App_render (mkState t l o' r j' err').
Proof. reflexivity. Qed.

Lemma App_render_same (s s' : State) :
  title s' = title s -> links s' = links s -> isReadOnly s' = isReadOnly s ->
  App_render s' = App_render s.
Proof.
  destruct s, s'. cbn. intros -> -> ->. apply App_render_cells.
Qed.

Lemma Array_each_Ok (f : nat -> value -> res unit) (xs : list value) :
  (forall i x, In x xs -> f i x = Ok tt) ->
  forall k, Array_each_from k f xs = Ok tt.
Proof.
  induction xs as [|x xs IH]; intros H k; [reflexivity|].
  cbn [Array_each_from]. rewrite H by now left. cbn [bind].
  apply IH. intros i y Hy. apply H. now right.
Qed.

(** Link items render in both modes. *)
Lemma link_key_renders (l : LinkItem) :
  (k <- get (link_value l) (js "id") ;; React_string k) = Ok tt.
Proof. reflexivity. Qed.

Lemma link_row_renders (r : bool) (l : LinkItem) :
  SortableLinkRow_render r (link_value l) = Ok tt.
Proof.
  unfold SortableLinkRow_render. destruct r; cbn; [|reflexivity].
  destruct (url l), (label l); reflexivity.
Qed.

Lemma links_render (t : value) (L : list LinkItem) (r o : bool)
    (j : jsstring) (err : option jsstring) :
  App_render (mkState t (map link_value L) o r j err) = title_render r t.
Proof.
  unfold App_render. cbn [links isReadOnly title]. unfold Array_each.
  rewrite Array_each_Ok.
  2:{ intros i x Hx. apply in_map_iff in Hx as (l & <- & _). apply link_key_renders. }
  cbn [bind]. rewrite (Array_each_Ok (fun _ link => SortableLinkRow_render r link)).
  2:{ intros i x Hx. apply in_map_iff in Hx as (l & <- & _). apply link_row_renders. }
  now destruct (title_render r t) as [[]|].
Qed.

Lemma typed_renders (T : jsstring) (L : list LinkItem) (r o : bool)
    (j : jsstring) (err : option jsstring) :
  App_render (mkState (VStr T) (map link_value L) o r j err) = Ok tt.
Proof. rewrite links_render. destruct r, T; reflexivity. Qed.

(** A state that renders has a title that renders in its mode. *)
Lemma renders_title (s : State) :
  renders s -> title_render (isReadOnly s) (title s) = Ok tt.
Proof.
  unfold renders, App_render. intros H.
  destruct (Array_each _ (links s)) as [[]|]; [|discriminate]. cbn [bind] in H.
  destruct (title_render (isReadOnly s) (title s)) as [[]|]; [reflexivity|discriminate].
Qed.

(** Link items in place of the links of a state that renders. *)
Lemma renders_links (s : State) (L : list LinkItem) (o : bool)
    (j : jsstring) (err : option jsstring) :
  renders s ->
  App_render (mkState (title s) (map link_value L) o (isReadOnly s) j err) = Ok tt.
Proof. intros H. rewrite links_render. now apply renders_title. Qed.

(** *** The handler of the JSON editor, case by case *)

Lemma accepted_items_shape (v : value) :
  accepted_items v =
    if Array_isArray v then Some (elements v)
    else if has_items v then Some (elements (prop v (js "items")))
    else None.
Proof.
  destruct v as [| |b|n|str|xs|ps]; try reflexivity.
  - now destruct b.
  - now destruct n.
  - now destruct str.
  - unfold has_items. simpl.
    destruct (lookup (js "items") ps) as [[| |b|n|str|xs|qs]|]; reflexivity.
Qed.

Lemma handleJsonChange_readonly text s :
  isReadOnly s = true -> handleJsonChange text s = Ok [].
Proof. unfold handleJsonChange. now intros ->. Qed.

Lemma handleJsonChange_syntax text s :
  isReadOnly s = false ->
  JSON_parse text = None ->
  handleJsonChange text s
  = Ok [SetJsonString text; SetJsonError (Some (js "Invalid JSON syntax"))].
Proof. unfold handleJsonChange. now intros -> ->. Qed.

Lemma handleJsonChange_format text s parsed :
  isReadOnly s = false ->
  JSON_parse text = Some parsed ->
  accepted_items parsed = None ->
  handleJsonChange text s
  = Ok [SetJsonString text;
        SetJsonError (Some (js "Invalid format: Expected array or { title, items: [] }"))].
Proof.
  unfold handleJsonChange. intros -> -> Ha. rewrite accepted_items_shape in Ha.
  destruct (Array_isArray parsed); [discriminate|].
  destruct (has_items parsed); [discriminate|]. reflexivity.
Qed.

Lemma handleJsonChange_accepted text s parsed items :
  isReadOnly s = false ->
  JSON_parse text = Some parsed ->
  accepted_items parsed = Some items ->
  exists cmds,
    handleJsonChange text s = Ok cmds /\
    commit s cmds = mkState (edited_title parsed (title s)) items (isJsonOpen s)
                      (isReadOnly s) text None.
Proof.
  unfold handleJsonChange, edited_title. intros Hr -> Ha.
  rewrite accepted_items_shape in Ha. destruct s; simpl in *; subst.
  destruct (Array_isArray parsed).
  - injection Ha as <-. eexists. split; reflexivity.
  - destruct (has_items parsed); [|discriminate]. injection Ha as <-.
    destruct (truthy (prop parsed (js "title"))); eexists; split; reflexivity.
Qed.

Lemma step_EditJson_readonly text s :
  isReadOnly s = true -> step s (EditJson text) = Ok s.
Proof.
  intros H. unfold step. simpl. now rewrite handleJsonChange_readonly.
Qed.

Lemma step_EditJson_syntax text s :
  isReadOnly s = false ->
  JSON_parse text = None ->
  step s (EditJson text) =
    (_ <- App_render s ;;
     Ok (mkState (title s) (links s) (isJsonOpen s) (isReadOnly s) text
           (Some (js "Invalid JSON syntax")))).
Proof.
  intros Hr Hp. unfold step. simpl. unfold handleJsonChange.
  rewrite Hp. destruct s; simpl in *; subst. reflexivity.
Qed.

Lemma step_EditJson_format text s parsed :
  isReadOnly s = false ->
  JSON_parse text = Some parsed ->
  accepted_items parsed = None ->
  step s (EditJson text) =
    (_ <- App_render s ;;
     Ok (mkState (title s) (links s) (isJsonOpen s) (isReadOnly s) text
           (Some (js "Invalid format: Expected array or { title, items: [] }")))).
Proof.
  intros Hr Hp Ha. unfold step. simpl. unfold handleJsonChange.
  rewrite Hp. rewrite accepted_items_shape in Ha.
  destruct s; simpl in *; subst.
  destruct (Array_isArray parsed); [discriminate|].
  destruct (has_items parsed); [discriminate|]. reflexivity.
Qed.

Lemma step_EditJson_accepted text s parsed items :
  isReadOnly s = false ->
  JSON_parse text = Some parsed ->
  accepted_items parsed = Some items ->
  step s (EditJson text) =
    (let s1 := mkState (edited_title parsed (title s)) items (isJsonOpen s)
                 (isReadOnly s) text None in
     _ <- App_render s1 ;; Ok (commit s1 (sync_effect s1))).
Proof.
  intros Hr Hp Ha. unfold step. simpl. unfold handleJsonChange, edited_title.
  rewrite Hp. rewrite accepted_items_shape in Ha.
  destruct s; simpl in *; subst.
  destruct (Array_isArray parsed).
  - injection Ha as <-. reflexivity.
  - destruct (has_items parsed); [|discriminate]. injection Ha as <-.
    destruct (truthy (prop parsed (js "title"))); reflexivity.
Qed.

(** *** The handler of a loaded file, case by case *)

Lemma uploadJson_rejected text s :
  accepted text = None ->
  exists msg, uploadJson text s = Ok [Alert msg].
Proof.
  unfold accepted, uploadJson. intros Ha.
  destruct (JSON_parse text) as [parsed|]; [|eauto].
  rewrite accepted_items_shape in Ha.
  destruct (Array_isArray parsed); [discriminate|].
  destruct (has_items parsed); [discriminate|]. eauto.
Qed.

Lemma uploadJson_accepted text s parsed items :
  JSON_parse text = Some parsed ->
  accepted_items parsed = Some items ->
  uploadJson text s = Ok [SetLinks items; SetTitle (uploaded_title parsed); ClearFileInput].
Proof.
  unfold uploadJson, uploaded_title. intros -> Ha.
  rewrite accepted_items_shape in Ha.
  destruct (Array_isArray parsed); [now injection Ha as <-|].
  destruct (has_items parsed); [now injection Ha as <-|discriminate].
Qed.

Lemma step_FileLoaded_rejected text s :
  accepted text = None -> step s (FileLoaded text) = Ok s.
Proof.
  intros Ha. destruct (uploadJson_rejected _ s Ha) as [msg H].
  unfold step, handle. rewrite H. reflexivity.
Qed.

Lemma step_FileLoaded_accepted text s parsed items :
  JSON_parse text = Some parsed ->
  accepted_items parsed = Some items ->
  step s (FileLoaded text) =
    (let s1 := mkState (uploaded_title parsed) items (isJsonOpen s)
                 (isReadOnly s) (jsonString s) (jsonError s) in
     _ <- App_render s1 ;; Ok (commit s1 (sync_effect s1))).
Proof.
  intros Hp Ha. unfold step, handle.
  rewrite (uploadJson_accepted _ s _ _ Hp Ha). reflexivity.
Qed.

(** The effect writes the text buffer and nothing else. *)
Lemma sync_effect_cells s :
  let s' := commit s (sync_effect s) in
  title s' = title s /\ links s' = links s /\ isJsonOpen s' = isJsonOpen s /\
  isReadOnly s' = isReadOnly s /\ jsonError s' = jsonError s.
Proof.
  unfold sync_effect. destruct (isJsonOpen s) eqn:E; simpl; rewrite ?E; auto.
Qed.

Lemma sync_effect_closed s :
  isJsonOpen s = false -> in_sync (commit s (sync_effect s)).
Proof. unfold sync_effect, in_sync. intros ->. reflexivity. Qed.

(** ** C2 and C3: what the JSON editor and the file loader accept *)

(** C2, as stated: in every state, a text that does not parse leaves links
    and title alone, sets the error to "Invalid JSON syntax" and becomes the
    text buffer.  It fails in read-only mode, where the guard at the head of
    [handleJsonChange] returns before anything is set: the buffer keeps its
    text and no error is shown. *)
Lemma invalid_edit_ignored_when_locked :
  isReadOnly locked_state = true /\
  JSON_parse (js "{") = None /\
  step locked_state (EditJson (js "{")) = Ok locked_state /\
  jsonError locked_state <> Some (js "Invalid JSON syntax") /\
  jsonString locked_state <> js "{".
Proof.
  split; [reflexivity|]. split; [reflexivity|].
  split; [now apply step_EditJson_readonly|].
  split; intros H; vm_compute in H; discriminate.
Qed.

(** C2, amended: outside read-only mode, a text that does not parse leaves
    the links and the title unchanged, sets the error to
    "Invalid JSON syntax", and is taken as the new text buffer: the handler
    calls [setJsonString] and [setJsonError] and no other setter, in every
    state, and in a state the page shows this is the next state. *)
Theorem invalid_edit_is_atomic (s : State) (text : jsstring) :
  isReadOnly s = false ->
  JSON_parse text = None ->
  handleJsonChange text s
  = Ok [SetJsonString text; SetJsonError (Some (js "Invalid JSON syntax"))] /\
  (renders s ->
   exists s',
     step s (EditJson text) = Ok s' /\
     links s' = links s /\ title s' = title s /\
     jsonError s' = Some (js "Invalid JSON syntax") /\
     jsonString s' = text).
Proof.
  intros Hr Hp. split; [now apply handleJsonChange_syntax|].
  intros Hs. rewrite (step_EditJson_syntax _ s Hr Hp), Hs.
  eexists. split; [reflexivity|]. simpl. auto.
Qed.

Lemma invalid_edit_is_atomic_witness :
  exists s',
    step mounted_state (EditJson (js "{")) = Ok s' /\
    links s' = links mounted_state /\ title s' = title mounted_state /\
    jsonError s' = Some (js "Invalid JSON syntax") /\
    jsonString s' = js "{".
Proof.
  apply (proj2 (invalid_edit_is_atomic mounted_state (js "{") eq_refl eq_refl)).
  reflexivity.
Defined.

(** C3, as stated: for every text, [handleJsonChange] and [uploadJson]
    replace the links exactly when the text parses and has the shape.  In
    read-only mode [handleJsonChange] returns at its guard: a text of the
    right shape is not taken. *)
Lemma valid_edit_ignored_when_locked :
  isReadOnly locked_state = true /\
  accepted (js "[]") = Some [] /\
  step locked_state (EditJson (js "[]")) = Ok locked_state /\
  links locked_state <> [].
Proof.
  split; [reflexivity|]. split; [reflexivity|].
  split; [now apply step_EditJson_readonly|].
  discriminate.
Qed.

(** What one event leaves in the cells the effect does not write: what the
    setter calls of its handler leave there. *)
Lemma step_cells_inv (s : State) (e : Event) (s' : State) :
  step s e = Ok s' ->
  exists cmds,
    handle s e = Ok cmds /\
    title s' = title (commit s cmds) /\ links s' = links (commit s cmds) /\
    isJsonOpen s' = isJsonOpen (commit s cmds) /\
    isReadOnly s' = isReadOnly (commit s cmds) /\
    jsonError s' = jsonError (commit s cmds).
Proof.
  unfold step. intros H. destruct (handle s e) as [cmds|]; [|discriminate].
  exists cmds. split; [reflexivity|]. cbn [bind] in H.
  destruct (if calls_setter cmds then App_render (commit s cmds) else Ok tt);
    [|discriminate].
  cbn [bind] in H. injection H as <-. destruct (deps_changed s cmds).
  - apply sync_effect_cells.
  - repeat split.
Qed.

(** C3, amended: [uploadJson] in every state, and [handleJsonChange] in
    every state outside read-only mode, call [setLinks] exactly when the
    text parses as JSON and is an array or an object whose [items] is an
    array, and then with that array as parsed, whatever its elements; in
    every other case the links stay as they are and an error is reported,
    in [jsonError] or by [alert].  The cells are those the setter calls of
    the handler leave, and those of the next state when the page renders
    it. *)
Theorem shape_is_the_only_validation (s : State) (text : jsstring) :
  (isReadOnly s = false ->
   exists cmds,
     handleJsonChange text s = Ok cmds /\
     match accepted text with
     | Some items => links (commit s cmds) = items /\ jsonError (commit s cmds) = None
     | None => links (commit s cmds) = links s /\
               exists msg, jsonError (commit s cmds) = Some msg
     end) /\
  (exists cmds,
     uploadJson text s = Ok cmds /\
     match accepted text with
     | Some items => links (commit s cmds) = items /\ forall msg, ~ In (Alert msg) cmds
     | None => commit s cmds = s /\ exists msg, In (Alert msg) cmds
     end) /\
  (forall s',
     step s (FileLoaded text) = Ok s' \/
     (isReadOnly s = false /\ step s (EditJson text) = Ok s') ->
     match accepted text with
     | Some items => links s' = items
     | None => links s' = links s
     end).
Proof.
  assert (Hedit : isReadOnly s = false ->
   exists cmds,
     handleJsonChange text s = Ok cmds /\
     match accepted text with
     | Some items => links (commit s cmds) = items /\ jsonError (commit s cmds) = None
     | None => links (commit s cmds) = links s /\
               exists msg, jsonError (commit s cmds) = Some msg
     end).
  { intros Hr. unfold accepted.
    destruct (JSON_parse text) as [parsed|] eqn:Hp.
    - destruct (accepted_items parsed) as [items|] eqn:Ha.
      + destruct (handleJsonChange_accepted _ s _ _ Hr Hp Ha) as (cmds & Hh & Hc).
        exists cmds. split; [exact Hh|]. now rewrite Hc.
      + rewrite (handleJsonChange_format _ s _ Hr Hp Ha). eexists. split; [reflexivity|].
        simpl. eauto.
    - rewrite (handleJsonChange_syntax _ s Hr Hp). eexists. split; [reflexivity|].
      simpl. eauto. }
  assert (Hload : exists cmds,
     uploadJson text s = Ok cmds /\
     match accepted text with
     | Some items => links (commit s cmds) = items /\ forall msg, ~ In (Alert msg) cmds
     | None => commit s cmds = s /\ exists msg, In (Alert msg) cmds
     end).
  { destruct (accepted text) as [items|] eqn:Ha.
    - unfold accepted in Ha. destruct (JSON_parse text) as [parsed|] eqn:Hp; [|discriminate].
      rewrite (uploadJson_accepted _ s _ _ Hp Ha).
      eexists. split; [reflexivity|]. split; [reflexivity|].
      intros msg [H|[H|[H|[]]]]; discriminate.
    - destruct (uploadJson_rejected _ s Ha) as [msg ->].
      eexists. split; [reflexivity|]. split; [reflexivity|]. exists msg. now left. }
  split; [exact Hedit|]. split; [exact Hload|].
  intros s' [H|[Hr H]].
  - destruct (step_cells_inv _ _ _ H) as (cmds & Hh & _ & -> & _).
    cbn [handle] in Hh. destruct Hload as (cmds' & Hh' & Hm).
    rewrite Hh in Hh'. injection Hh' as <-.
    destruct (accepted text); [apply Hm|]. now destruct Hm as [-> _].
  - destruct (step_cells_inv _ _ _ H) as (cmds & Hh & _ & -> & _).
    cbn [handle] in Hh. destruct (Hedit Hr) as (cmds' & Hh' & Hm).
    rewrite Hh in Hh'. injection Hh' as <-.
    destruct (accepted text); apply Hm.
Qed.

Lemma shape_is_the_only_validation_witness :
  exists cmds,
    handleJsonChange (js "[null, 7]") mounted_state = Ok cmds /\
    match accepted (js "[null, 7]") with
    | Some items =>
        links (commit mounted_state cmds) = items /\
        jsonError (commit mounted_state cmds) = None
    | None =>
        links (commit mounted_state cmds) = links mounted_state /\
        exists msg, jsonError (commit mounted_state cmds) = Some msg
    end.
Proof.
  apply (proj1 (shape_is_the_only_validation mounted_state (js "[null, 7]"))).
  reflexivity.
Defined.

(** The links are not looked at: an accepted array that holds [null] is
    stored, and the render that follows throws where it reads [link.id]. *)
Example accepted_text_that_does_not_render :
  accepted (js "[null, 7]")
  = Some [VNull; VNum (NFinite false 7881299347898368 (-50))] /\
  step mounted_state (EditJson (js "[null, 7]")) = Throw TypeError /\
  step mounted_state (FileLoaded (js "[null, 7]")) = Throw TypeError.
Proof. vm_compute. repeat split. Qed.

(** ** C9: the title after an upload and after an edit *)

(** C9: for a text that parses to a bare array, [uploadJson] sets the title
    to "Imported List" and [handleJsonChange] keeps the title; for an object
    whose [items] is an array, [uploadJson] sets the title to [parsed.title]
    when it is truthy and to "Untitled List" otherwise, and
    [handleJsonChange] keeps the title when [parsed.title] is absent, empty
    or otherwise falsy.  The title is the one the setter calls of the
    handler leave, which is the title of the next state when the page
    renders it. *)
Theorem title_after_upload_and_edit (s : State) (text : jsstring) (parsed : value) :
  JSON_parse text = Some parsed ->
  (forall xs, parsed = VArr xs ->
     (exists cmds, uploadJson text s = Ok cmds /\
        title (commit s cmds) = VStr (js "Imported List")) /\
     (exists cmds, handleJsonChange text s = Ok cmds /\
        title (commit s cmds) = title s)) /\
  (forall ps xs, parsed = VObj ps -> lookup (js "items") ps = Some (VArr xs) ->
     (exists cmds, uploadJson text s = Ok cmds /\
        title (commit s cmds) = match lookup (js "title") ps with
                                | Some t => if truthy t then t else VStr (js "Untitled List")
                                | None => VStr (js "Untitled List")
                                end) /\
     (lookup (js "title") ps = None \/
      lookup (js "title") ps = Some (VStr []) \/
      (exists t, lookup (js "title") ps = Some t /\ truthy t = false) ->
      exists cmds, handleJsonChange text s = Ok cmds /\
        title (commit s cmds) = title s)) /\
  (forall e s',
     e = FileLoaded text \/ e = EditJson text ->
     step s e = Ok s' ->
     exists cmds, handle s e = Ok cmds /\ title s' = title (commit s cmds)).
Proof.
  intros Hp.
  assert (Hedit : forall items,
    accepted_items parsed = Some items ->
    edited_title parsed (title s) = title s ->
    exists cmds, handleJsonChange text s = Ok cmds /\ title (commit s cmds) = title s).
  { intros items Ha Ht. destruct (isReadOnly s) eqn:Hr.
    - rewrite (handleJsonChange_readonly _ s Hr). now eexists.
    - destruct (handleJsonChange_accepted _ s _ _ Hr Hp Ha) as (cmds & Hh & Hc).
      exists cmds. split; [exact Hh|]. now rewrite Hc. }
  split; [|split].
  - intros xs ->. split.
    + rewrite (uploadJson_accepted _ s _ xs Hp eq_refl). now eexists.
    + now apply (Hedit xs).
  - intros ps xs -> Hi.
    assert (Ha : accepted_items (VObj ps) = Some xs)
      by (unfold accepted_items; now rewrite Hi).
    split.
    + rewrite (uploadJson_accepted _ s _ xs Hp Ha). eexists. split; [reflexivity|].
      cbn [commit fold_left apply_cmd title]. unfold uploaded_title, js_or, prop, Array_isArray.
      destruct (lookup (js "title") ps) as [t|]; reflexivity.
    + intros Ht. apply (Hedit xs Ha).
      unfold edited_title, prop, Array_isArray.
      destruct Ht as [-> | [-> | (t & -> & Hf)]]; try reflexivity.
      now rewrite Hf.
  - intros e s' _ H. destruct (step_cells_inv _ _ _ H) as (cmds & Hh & Ht & _).
    now exists cmds.
Qed.

Lemma title_after_upload_and_edit_witness :
  (exists cmds, uploadJson (js "[]") mounted_state = Ok cmds /\
     title (commit mounted_state cmds) = VStr (js "Imported List")) /\
  (exists cmds, handleJsonChange (js "[]") mounted_state = Ok cmds /\
     title (commit mounted_state cmds) = title mounted_state).
Proof.
  apply (proj1 (title_after_upload_and_edit mounted_state (js "[]") (VArr []) eq_refl) []).
  reflexivity.
Defined.

(** ** C6: read-only mode *)

Lemma existsb_and_false {A} (p q : A -> bool) (l : list A) :
  (forall r, In r l -> q r = false) ->
  existsb (fun r => p r && q r) l = false.
Proof.
  induction l as [|r l IH]; simpl; intros Hq; [reflexivity|].
  rewrite (Hq r (or_introl eq_refl)), andb_false_r. simpl.
  apply IH. intros r' Hin. apply Hq. now right.
Qed.

Lemma rows_from_In (isRO : bool) (xs : list value) :
  forall i r, In r (rows_from i isRO xs) ->
    exists n x, r = SortableLinkRow isRO n x /\ In x xs.
Proof.
  induction xs as [|x xs IH]; intros i r H; [contradiction|].
  cbn [rows_from] in H. destruct H as [<-|H].
  - exists i, x. split; [reflexivity | now left].
  - destruct (IH _ _ H) as (n & y & -> & Hy). exists n, y. split; [reflexivity | now right].
Qed.

(** C6: in read-only mode [handleJsonChange] returns without setting
    anything, whatever the text; the textarea is rendered [readOnly]; every
    row's sortable is created disabled; and no editing event (a field or
    title edit, add, remove, drag, typing in the JSON editor) can be raised
    from the rendered controls. *)
Theorem read_only_disables_editing (s : State) :
  isReadOnly s = true ->
  (forall text, handleJsonChange text s = Ok [] /\ step s (EditJson text) = Ok s) /\
  textarea_readOnly (render s) = true /\
  Forall (fun r => sortable_disabled r = true) (rows (render s)) /\
  (forall e, is_edit e = true -> can_dispatch (render s) e = false).
Proof.
  intros Hr. split; [|split; [|split]].
  - intros text. split.
    + now apply handleJsonChange_readonly.
    + now apply step_EditJson_readonly.
  - simpl. exact Hr.
  - simpl. rewrite Hr. apply Forall_forall. intros r Hin.
    apply rows_from_In in Hin as (n & l & -> & _). reflexivity.
  - assert (Hflags : forall r, In r (rows (render s)) ->
              negb (sortable_disabled r) = false /\ label_input r = false /\
              url_input r = false /\ remove_button r = false).
    { intros r Hin. simpl in Hin. rewrite Hr in Hin.
      apply rows_from_In in Hin as (n & l & -> & _). simpl. auto. }
    intros e He. destruct e as [uuid|i f v|i|a o|v|text| | |text|]; try discriminate.
    + simpl. now rewrite Hr.
    + destruct f; simpl can_dispatch; apply existsb_and_false; intros r Hin;
        now destruct (Hflags r Hin) as (? & ? & ? & ?).
    + simpl can_dispatch. apply existsb_and_false. intros r Hin.
      now destruct (Hflags r Hin) as (? & ? & ? & ?).
    + simpl can_dispatch. apply existsb_and_false. intros r Hin.
      now destruct (Hflags r Hin) as (? & ? & ? & ?).
    + simpl. now rewrite Hr.
    + simpl. now rewrite Hr.
Qed.

Lemma read_only_disables_editing_witness :
  (forall text, handleJsonChange text locked_state = Ok [] /\
                step locked_state (EditJson text) = Ok locked_state) /\
  textarea_readOnly (render locked_state) = true /\
  Forall (fun r => sortable_disabled r = true) (rows (render locked_state)) /\
  (forall e, is_edit e = true -> can_dispatch (render locked_state) e = false).
Proof.
  apply (read_only_disables_editing locked_state). reflexivity.
Defined.

(** ** C7 and C1: the text buffer and the effect *)

(** C7: while the JSON editor panel is open the effect sets nothing, and an
    event leaves the text buffer as it is, unless it is the user's typing in
    the editor, which makes the typed text the buffer, or the click that
    closes the panel, after which the buffer is the serialisation again. *)
Theorem open_panel_keeps_the_text (s : State) :
  isJsonOpen s = true ->
  sync_effect s = [] /\
  forall e s',
    step s e = Ok s' ->
    match e with
    | EditJson text => jsonString s' = if isReadOnly s then jsonString s else text
    | ToggleJson => isJsonOpen s' = false /\ in_sync s'
    | _ => jsonString s' = jsonString s /\ isJsonOpen s' = true
    end.
Proof.
  intros Ho. split; [unfold sync_effect; now rewrite Ho|].
  intros e s' H. destruct s as [t l o r str err]. simpl in Ho. subst o.
  destruct e as [uuid|i f v|i|a ov|v|text| | |text|];
    unfold step, handle in H;
    unfold addLink, updateLink, removeLink, handleDragEnd, handleJsonChange,
      uploadJson, downloadJson, bind in H;
    simpl in H; handler_cases; simpl; auto.
  all: try (unfold deps_changed in *; simpl in *; handler_cases; simpl; auto).
  split; reflexivity.
Qed.

Lemma open_panel_keeps_the_text_witness :
  let s' := commit opened_state [SetLinks (arrayMove (links opened_state) 0 1)] in
  step opened_state (DragEnd (str_id (js "1")) (Some (str_id (js "2")))) = Ok s' /\
  jsonString s' = jsonString opened_state /\ isJsonOpen s' = true.
Proof.
  split; [reflexivity|].
  exact (proj2 (open_panel_keeps_the_text opened_state eq_refl)
           (DragEnd (str_id (js "1")) (Some (str_id (js "2")))) _ eq_refl).
Defined.

(** ** Link items as values *)

Lemma get_link_id (l : LinkItem) : get (link_value l) (js "id") = Ok (VStr (id l)).
Proof. reflexivity. Qed.

Lemma with_field_link (l : LinkItem) (f : field) (v : jsstring) :
  with_field (link_value l) f v = link_value (set_field f v l).
Proof. destruct f; reflexivity. Qed.

Lemma Array_map_links (i : jsstring) (f : field) (v : jsstring) (L : list LinkItem)
    (k : nat) :
  Array_map_from k (fun row link =>
     lid <- get link (js "id") ;;
     Ok (if same_id row lid (str_id i) then with_field link f v else link))
    (map link_value L)
  = Ok (map link_value (map (fun l => if str_eqb (id l) i then set_field f v l else l) L)).
Proof.
  revert k. induction L as [|l L IH]; intros k; [reflexivity|].
  cbn [map Array_map_from]. rewrite get_link_id. cbn [bind same_id str_id strict_eq].
  rewrite IH. cbn [bind]. rewrite with_field_link.
  now destruct (str_eqb (id l) i).
Qed.

Lemma Array_filter_links (i : jsstring) (L : list LinkItem) (k : nat) :
  Array_filter_from k (fun row link =>
     lid <- get link (js "id") ;; Ok (negb (same_id row lid (str_id i))))
    (map link_value L)
  = Ok (map link_value (filter (fun l => negb (str_eqb (id l) i)) L)).
Proof.
  revert k. induction L as [|l L IH]; intros k; [reflexivity|].
  cbn [map Array_filter_from filter]. rewrite get_link_id.
  cbn [bind same_id str_id strict_eq].
  rewrite IH. cbn [bind].
  now destruct (str_eqb (id l) i).
Qed.

Lemma Array_findIndex_links (i : jsstring) (L : list LinkItem) (k : nat) :
  Array_findIndex_from k (fun row item =>
     iid <- get item (js "id") ;; Ok (same_id row iid (str_id i)))
    (map link_value L)
  = Ok (match index_of i L with
        | Some n => Z.of_nat (k + n)
        | None => (-1)%Z
        end).
Proof.
  revert k. induction L as [|l L IH]; intros k; [reflexivity|].
  cbn [map Array_findIndex_from index_of]. rewrite get_link_id.
  cbn [bind same_id str_id strict_eq].
  destruct (str_eqb (id l) i).
  - now rewrite Nat.add_0_r.
  - rewrite IH. destruct (index_of i L) as [n|]; cbn [option_map]; [|reflexivity].
    do 2 f_equal. lia.
Qed.

(** ** C8: [updateLink] and [removeLink] *)

(** C8: on a list of link items, [updateLink] returns a list of the same
    length in which the item at each position keeps its id, has the named
    field set to the value and its other field kept when its id is the given
    one, and is the same item otherwise; [removeLink] returns the items
    whose id differs from the given one, in their order. *)
Theorem update_and_remove_touch_only_the_id
    (s : State) (L : list LinkItem) (i : jsstring) (f : field) (v : jsstring) :
  links s = map link_value L ->
  (exists L',
     updateLink (str_id i) f v s = Ok [SetLinks (map link_value L')] /\
     length L' = length L /\
     forall n l, nth_error L n = Some l ->
       exists l', nth_error L' n = Some l' /\
         id l' = id l /\
         (id l = i ->
            match f with
            | Label => label l' = v /\ url l' = url l
            | Url => url l' = v /\ label l' = label l
            end) /\
         (id l <> i -> l' = l)) /\
  removeLink (str_id i) s =
    Ok [SetLinks (map link_value (filter (fun l => negb (str_eqb (id l) i)) L))].
Proof.
  intros Hl. split.
  - exists (map (fun l => if str_eqb (id l) i then set_field f v l else l) L).
    split; [|split].
    + unfold updateLink, Array_map. rewrite Hl, Array_map_links. reflexivity.
    + apply length_map.
    + intros n l Hn. eexists. split.
      * rewrite nth_error_map, Hn. reflexivity.
      * destruct (str_eqb (id l) i) eqn:E.
        -- apply str_eqb_eq in E. repeat split.
           ++ now destruct f.
           ++ intros _. destruct f; simpl; auto.
           ++ intros Hne. contradiction.
        -- apply str_eqb_neq in E. repeat split; auto. intros He. contradiction.
  - unfold removeLink, Array_filter. rewrite Hl, Array_filter_links. reflexivity.
Qed.

Lemma update_and_remove_touch_only_the_id_witness :
  removeLink (str_id (js "1")) mounted_state =
    Ok [SetLinks (map link_value
          (filter (fun l => negb (str_eqb (id l) (js "1"))) initial_links))].
Proof.
  exact (proj2 (update_and_remove_touch_only_the_id mounted_state initial_links
                  (js "1") Label [] eq_refl)).
Defined.

(** ** C10: the name of the downloaded file *)

Lemma name_unit_correct (t : jsstring) :
  toLowerCase_ascii (replace_non_alnum t) = map name_unit t.
Proof.
  unfold toLowerCase_ascii, replace_non_alnum. rewrite map_map.
  apply map_ext. intros c. unfold name_unit, matches_non_alnum.
  destruct (is_upper c) eqn:Eu.
  - rewrite orb_true_r. simpl. now rewrite Eu.
  - rewrite orb_false_r. destruct (is_lower c || is_digit c) eqn:E; simpl.
    + now rewrite Eu.
    + reflexivity.
Qed.

(** [toLowerCase_ascii] is only given code units below 128. *)
Lemma replace_non_alnum_ascii (t : jsstring) :
  Forall (fun c => (c < 128)%N) (replace_non_alnum t).
Proof.
  unfold replace_non_alnum. apply Forall_forall. intros c Hin.
  apply in_map_iff in Hin as (c0 & <- & _).
  unfold matches_non_alnum, is_lower, is_upper, is_digit, in_range, ch.
  simpl N_of_ascii.
  destruct (negb _) eqn:E; [lia|].
  apply negb_false_iff in E.
  repeat (apply orb_true_iff in E as [E|E]);
    apply andb_true_iff in E as [_ E]; apply N.leb_le in E; lia.
Qed.

(** C10: for a string title, the file name [downloadJson] gives is the
    title with every code unit other than an ASCII letter or digit replaced
    by ['_'] and the letters in lower case, followed by ".json"; the
    fallback "links" stands in exactly when that string is empty, which is
    exactly when the title is empty; a title of non-alphanumeric code units
    gives as many underscores. *)
Theorem download_name_of_title (s : State) (t : jsstring) :
  title s = VStr t ->
  (exists d,
     downloadJson s = Ok d /\
     file_name d =
       let base := toLowerCase_ascii (replace_non_alnum t) in
       (match base with [] => js "links" | _ => base end) ++ js ".json") /\
  toLowerCase_ascii (replace_non_alnum t) = map name_unit t /\
  (toLowerCase_ascii (replace_non_alnum t) = [] <-> t = []) /\
  (Forall (fun c => is_lower c || is_upper c || is_digit c = false) t ->
   map name_unit t = repeat (ch "_") (length t)).
Proof.
  intros Ht. split; [|split; [|split]].
  - unfold downloadJson. rewrite Ht. cbn [download_name bind].
    eexists. split; reflexivity.
  - apply name_unit_correct.
  - rewrite name_unit_correct. destruct t; simpl; split; congruence.
  - intros Hall. clear Ht. induction Hall as [|c0 t0 Hc Hall IH]; [reflexivity|].
    cbn [map length repeat]. rewrite IH. f_equal.
    unfold name_unit. apply orb_false_iff in Hc as [Hc Hd].
    apply orb_false_iff in Hc as [Hl Hu].
    now rewrite Hu, Hl, Hd.
Qed.

Lemma download_name_of_title_witness :
  exists d,
    downloadJson mounted_state = Ok d /\
    file_name d =
      let base := toLowerCase_ascii (replace_non_alnum (js "My Useful Links")) in
      (match base with [] => js "links" | _ => base end) ++ js ".json".
Proof.
  exact (proj1 (download_name_of_title mounted_state (js "My Useful Links") eq_refl)).
Defined.

Example download_name_underscores : download_name (VStr (js "?!")) = Ok (js "__.json").
Proof. reflexivity. Qed.

Example download_name_default :
  download_name (VStr (js "My Useful Links")) = Ok (js "my_useful_links.json").
Proof. reflexivity. Qed.

Example download_name_fallback : download_name (VStr []) = Ok (js "links.json").
Proof. reflexivity. Qed.

(** ** C4: drag and drop *)

Lemma splice_start_nat (len : Z) (n : nat) :
  (Z.of_nat n <= len)%Z -> splice_start len (Z.of_nat n) = n.
Proof.
  intros H. unfold splice_start.
  destruct (Z.ltb_spec (Z.of_nat n) 0); [lia|].
  rewrite Z.min_l by lia. apply Nat2Z.id.
Qed.

Lemma firstn_1_skipn {A} (xs : list A) (i : nat) (x : A) :
  nth_error xs i = Some x -> firstn 1 (skipn i xs) = [x].
Proof.
  revert xs. induction i as [|i IH]; intros [|y xs] H; try discriminate.
  - simpl in *. congruence.
  - simpl in *. now apply IH.
Qed.

Lemma remove_at_length {A} (xs : list A) (i : nat) :
  i < length xs -> S (length (remove_at i xs)) = length xs.
Proof.
  intros H. unfold remove_at. rewrite length_app, length_firstn, length_skipn. lia.
Qed.

Lemma remove_at_map {A B} (f : A -> B) (xs : list A) (i : nat) :
  remove_at i (map f xs) = map f (remove_at i xs).
Proof. unfold remove_at. now rewrite firstn_map, skipn_map, map_app. Qed.

(** [arrayMove] between two positions of the array: the element at [i] is
    taken out, and put back at position [j] of what is left. *)
Lemma arrayMove_in_range (xs : list value) (i j : nat) (x : value) :
  nth_error xs i = Some x ->
  j < length xs ->
  arrayMove xs (Z.of_nat i) (Z.of_nat j) =
    firstn j (remove_at i xs) ++ x :: skipn j (remove_at i xs).
Proof.
  intros Hi Hj.
  assert (Hlt : i < length xs) by (apply nth_error_Some; congruence).
  unfold arrayMove.
  destruct (Z.ltb_spec (Z.of_nat j) 0); [lia|].
  rewrite (splice_start_nat _ i) by lia.
  rewrite (firstn_1_skipn _ _ _ Hi). simpl length. simpl nth.
  replace (i + 1) with (S i) by lia. fold (remove_at i xs).
  rewrite splice_start_nat; [reflexivity|].
  pose proof (remove_at_length xs i Hlt). lia.
Qed.

Lemma remove_at_split {A} (xs : list A) (i : nat) (x : A) :
  nth_error xs i = Some x -> xs = firstn i xs ++ x :: skipn (S i) xs.
Proof.
  revert xs. induction i as [|i IH]; intros [|y xs] H; try discriminate.
  - simpl in *. congruence.
  - simpl in *. f_equal. now apply IH.
Qed.

Lemma index_of_nth (i : jsstring) (L : list LinkItem) (n : nat) :
  index_of i L = Some n ->
  exists l, nth_error L n = Some l /\ id l = i /\
    forall m l', m < n -> nth_error L m = Some l' -> id l' <> i.
Proof.
  revert n. induction L as [|l L IH]; intros n H; [discriminate|].
  simpl in H. destruct (str_eqb (id l) i) eqn:E.
  - injection H as <-. exists l. repeat split; [now apply str_eqb_eq|]. lia.
  - destruct (index_of i L) as [k|]; [|discriminate]. injection H as <-.
    destruct (IH k eq_refl) as (l0 & Hn & Hid & Hfirst).
    exists l0. repeat split; auto.
    intros [|m] l' Hm Hl'; simpl in Hl'.
    + injection Hl' as <-. now apply str_eqb_neq.
    + apply (Hfirst m); [lia|assumption].
Qed.

Lemma index_of_In (i : jsstring) (L : list LinkItem) :
  In i (map id L) -> exists n, index_of i L = Some n.
Proof.
  induction L as [|l L IH]; simpl; [easy|]. intros [H|H].
  - subst. rewrite str_eqb_refl. eauto.
  - destruct (str_eqb (id l) i); [eauto|].
    destruct (IH H) as [n ->]. simpl. eauto.
Qed.

Lemma Array_findIndex_range (p : nat -> value -> res bool) (xs : list value)
    (k : nat) (i : Z) :
  Array_findIndex_from k p xs = Ok i ->
  (i = -1 \/ (Z.of_nat k <= i < Z.of_nat k + Z.of_nat (length xs)))%Z.
Proof.
  revert k. induction xs as [|x xs IH]; intros k; cbn [Array_findIndex_from].
  - intros H. injection H as <-. now left.
  - destruct (p k x) as [[|]|]; cbn [bind]; [| |discriminate].
    + intros H. injection H as <-. right. cbn [length]. lia.
    + intros H. destruct (IH _ H) as [->|Hr]; [now left|right]. cbn [length]. lia.
Qed.

(** [arrayMove] from a position of the array, or from [-1], to anywhere:
    one element is taken out and put back. *)
Lemma arrayMove_Permutation (xs : list value) (from to : Z) :
  xs <> [] ->
  (-1 <= from < Z.of_nat (length xs))%Z ->
  Permutation xs (arrayMove xs from to).
Proof.
  intros Hne Hfrom.
  assert (Hlen : 0 < length xs) by (destruct xs; [contradiction|simpl; lia]).
  unfold arrayMove.
  set (start1 := splice_start (Z.of_nat (length xs)) from).
  assert (Hs : start1 < length xs).
  { unfold start1, splice_start. destruct (Z.ltb_spec from 0); lia. }
  destruct (nth_error xs start1) as [x|] eqn:Hx;
    [|apply nth_error_None in Hx; lia].
  rewrite (firstn_1_skipn _ _ _ Hx). cbn [length nth].
  replace (start1 + 1) with (S start1) by lia. fold (remove_at start1 xs).
  set (R := remove_at start1 xs). set (start2 := splice_start _ _).
  rewrite (remove_at_split xs start1 x Hx) at 1. fold (remove_at start1 xs). fold R.
  transitivity (x :: R).
  - symmetry. apply Permutation_middle.
  - rewrite <- (firstn_skipn start2 R) at 1. apply Permutation_middle.
Qed.

(** C4: when the drop target is [null] or has the id of the dragged row,
    the handler sets nothing and the state is unchanged.  Otherwise the new
    list is [arrayMove] of the old one, from the first index of the dragged
    id to that of the target id, and a permutation of it (for any list that
    has a row to drag); with the dragged id found at position [i] and the
    target id at [j], the new list has at position [j] the item that was at
    position [i], and is the old list with position [i] removed once its
    position [j] is removed: the other items keep their relative order. *)
Theorem drag_end_moves_one_item
    (s : State) (L : list LinkItem) (active : jsstring) (over : option jsstring) :
  links s = map link_value L ->
  (over = None \/ over = Some active ->
   handleDragEnd (str_id active) (option_map str_id over) s = Ok [] /\
   step s (DragEnd (str_id active) (option_map str_id over)) = Ok s) /\
  (forall o, over = Some o -> o <> active ->
   let index i := match index_of i L with Some n => Z.of_nat n | None => (-1)%Z end in
   let items' := arrayMove (links s) (index active) (index o) in
   handleDragEnd (str_id active) (option_map str_id over) s = Ok [SetLinks items'] /\
   (L <> [] -> Permutation (links s) items')) /\
  (forall o, over = Some o -> o <> active ->
   In active (map id L) -> In o (map id L) ->
   exists i j x L',
     index_of active L = Some i /\ index_of o L = Some j /\
     handleDragEnd (str_id active) (option_map str_id over) s
       = Ok [SetLinks (map link_value L')] /\
     Permutation L L' /\
     nth_error L i = Some x /\ nth_error L' j = Some x /\
     remove_at j L' = remove_at i L).
Proof.
  intros Hl. split; [|split].
  - intros H.
    assert (Hh : handleDragEnd (str_id active) (option_map str_id over) s = Ok []).
    { destruct H as [-> | ->]; [reflexivity|].
      unfold handleDragEnd. cbn [option_map Id_equal str_id strict_eq].
      now rewrite str_eqb_refl. }
    split; [exact Hh|]. unfold step, handle. rewrite Hh. reflexivity.
  - intros o -> Hne. cbv zeta. split.
    + unfold handleDragEnd. cbn [option_map Id_equal str_id strict_eq].
      assert (E : str_eqb active o = false) by (apply str_eqb_neq; congruence).
      rewrite E. cbn [negb]. rewrite Hl. unfold Array_findIndex.
      fold (str_id active). fold (str_id o).
      rewrite !Array_findIndex_links. cbn [bind Nat.add].
      destruct (index_of active L), (index_of o L); reflexivity.
    + intros HL. rewrite Hl. apply arrayMove_Permutation.
      * destruct L; [contradiction|discriminate].
      * rewrite length_map. destruct (index_of active L) as [i|] eqn:Hi.
        -- destruct (index_of_nth _ _ _ Hi) as (x & Hx & _).
           assert (i < length L) by (apply nth_error_Some; congruence). lia.
        -- destruct L; [contradiction|]. cbn [length]. lia.
  - intros o -> Hne Ha Ho.
    destruct (index_of_In _ _ Ha) as [i Hi].
    destruct (index_of_In _ _ Ho) as [j Hj].
    destruct (index_of_nth _ _ _ Hi) as (x & Hx & _).
    destruct (index_of_nth _ _ _ Hj) as (y & Hy & _).
    assert (Hjlt : j < length L) by (apply nth_error_Some; congruence).
    assert (Hilt : i < length L) by (apply nth_error_Some; congruence).
    pose proof (remove_at_length L i Hilt) as Hlen.
    set (R := remove_at i L) in *.
    exists i, j, x, (firstn j R ++ x :: skipn j R).
    split; [exact Hi|]. split; [exact Hj|]. split; [|split; [|split; [|split]]].
    + unfold handleDragEnd. cbn [option_map Id_equal str_id strict_eq].
      assert (E : str_eqb active o = false) by (apply str_eqb_neq; congruence).
      rewrite E. cbn [negb]. rewrite Hl. unfold Array_findIndex.
      fold (str_id active). fold (str_id o).
      rewrite !Array_findIndex_links, Hi, Hj. cbn [bind Nat.add].
      rewrite (arrayMove_in_range _ i j (link_value x)).
      * rewrite remove_at_map. fold R.
        now rewrite firstn_map, skipn_map, map_app.
      * now rewrite nth_error_map, Hx.
      * now rewrite length_map.
    + rewrite (remove_at_split L i x Hx) at 1. fold (remove_at i L). fold R.
      transitivity (x :: R).
      * symmetry. apply Permutation_middle.
      * rewrite <- (firstn_skipn j R) at 1. apply Permutation_middle.
    + exact Hx.
    + rewrite nth_error_app2; rewrite length_firstn, Nat.min_l by lia; [|lia].
      now rewrite Nat.sub_diag.
    + unfold remove_at at 1.
      rewrite firstn_app, length_firstn, Nat.min_l by lia.
      rewrite Nat.sub_diag, firstn_firstn, Nat.min_id. cbn [firstn]. rewrite app_nil_r.
      rewrite skipn_app, length_firstn, Nat.min_l by lia.
      rewrite (skipn_all2 (firstn j R)) by (rewrite length_firstn; lia).
      replace (S j - j) with 1 by lia. cbn [skipn app]. apply firstn_skipn.
Qed.

Lemma drag_end_moves_one_item_witness :
  exists i j x L',
    index_of (js "1") initial_links = Some i /\
    index_of (js "2") initial_links = Some j /\
    handleDragEnd (str_id (js "1")) (Some (str_id (js "2"))) mounted_state
      = Ok [SetLinks (map link_value L')] /\
    Permutation initial_links L' /\
    nth_error initial_links i = Some x /\ nth_error L' j = Some x /\
    remove_at j L' = remove_at i initial_links.
Proof.
  apply (proj2 (proj2 (drag_end_moves_one_item mounted_state initial_links
                         (js "1") (Some (js "2")) eq_refl)) (js "2") eq_refl).
  - discriminate.
  - simpl. auto.
  - simpl. auto.
Defined.

(** ** C1: the JSON mirror while the panel is closed *)

Lemma step_inv (s : State) (e : Event) (s' : State) :
  step s e = Ok s' ->
  exists cmds,
    handle s e = Ok cmds /\
    s' = if deps_changed s cmds
         then commit (commit s cmds) (sync_effect (commit s cmds))
         else commit s cmds.
Proof.
  unfold step. destruct (handle s e) as [cmds|x]; cbn [bind]; [|discriminate].
  destruct (if calls_setter cmds then App_render (commit s cmds) else Ok tt);
    cbn [bind]; [|discriminate].
  intros H. injection H as <-. eauto.
Qed.

(** Only the JSON editor, outside read-only mode, writes the text buffer. *)
Lemma handle_SetJsonString (s : State) (e : Event) (cmds : list Cmd) (str : jsstring) :
  handle s e = Ok cmds ->
  In (SetJsonString str) cmds ->
  e = EditJson str /\ isReadOnly s = false.
Proof.
  intros H Hin.
  destruct e as [uuid|i f v|i|a ov|v|text| | |text|];
    unfold handle in H;
    unfold addLink, updateLink, removeLink, handleDragEnd, handleJsonChange,
      uploadJson, downloadJson, bind in H;
    simpl in H; handler_cases; simpl in Hin;
    repeat (destruct Hin as [Hin|Hin]; try discriminate Hin); try contradiction.
  all: injection Hin as <-; auto.
Qed.

Lemma same_title_eq (a b : value) : same_title a b = true -> a = b.
Proof.
  destruct a, b; try discriminate. simpl. intros H. apply str_eqb_eq in H. now subst.
Qed.

(** Updates that change no dependency of the effect and do not write the
    text buffer leave title, links and buffer as they are. *)
Lemma commit_without_change (s : State) (cmds : list Cmd) :
  deps_changed s cmds = false ->
  (forall str, ~ In (SetJsonString str) cmds) ->
  forall s0, title s0 = title s ->
    title (commit s0 cmds) = title s0 /\
    links (commit s0 cmds) = links s0 /\
    jsonString (commit s0 cmds) = jsonString s0.
Proof.
  unfold deps_changed.
  induction cmds as [|c cmds IH]; intros Hd Hn s0 Ht; [simpl; auto|].
  simpl in Hd. apply orb_false_iff in Hd as [Hc Hd].
  assert (Hn' : forall str, ~ In (SetJsonString str) cmds).
  { intros str Hin. apply (Hn str). now right. }
  specialize (IH Hd Hn').
  destruct c; try discriminate Hc; simpl.
  - apply negb_false_iff, same_title_eq in Hc. subst v.
    destruct (IH (apply_cmd s0 (SetTitle (title s)))) as (H1 & H2 & H3); [reflexivity|].
    simpl in *. rewrite H1, H2, H3. auto.
  - destruct (IH (apply_cmd s0 (SetIsJsonOpen b))) as (H1 & H2 & H3); [exact Ht|].
    simpl in *. auto.
  - destruct (IH (apply_cmd s0 (SetIsReadOnly b))) as (H1 & H2 & H3); [exact Ht|].
    simpl in *. auto.
  - exfalso. apply (Hn str). now left.
  - destruct (IH (apply_cmd s0 (SetJsonError err))) as (H1 & H2 & H3); [exact Ht|].
    simpl in *. auto.
  - apply IH, Ht.
  - apply IH, Ht.
Qed.

Lemma existsb_SetLinks_deps (s : State) (cmds : list Cmd) :
  existsb (fun c => match c with SetLinks _ => true | _ => false end) cmds = true ->
  deps_changed s cmds = true.
Proof.
  unfold deps_changed. induction cmds as [|c cmds IH]; simpl; [discriminate|].
  intros H. apply orb_true_iff in H as [H|H].
  - destruct c; try discriminate. reflexivity.
  - rewrite (IH H). apply orb_true_r.
Qed.

Lemma effect_restores (s1 : State) :
  isJsonOpen (commit s1 (sync_effect s1)) = false ->
  in_sync (commit s1 (sync_effect s1)).
Proof.
  intros H. apply sync_effect_closed.
  now destruct (sync_effect_cells s1) as (_ & _ & <- & _).
Qed.

(** *** Link items stay link items *)

Lemma Array_map_typed (i : Id) (f : field) (v : jsstring) (L : list LinkItem) :
  forall k, exists L',
    Array_map_from k (fun row link =>
       lid <- get link (js "id") ;;
       Ok (if same_id row lid i then with_field link f v else link))
      (map link_value L) = Ok (map link_value L').
Proof.
  induction L as [|l L IH]; intros k; [now exists []|].
  destruct (IH (S k)) as (L' & H). cbn [map Array_map_from].
  rewrite get_link_id. cbn [bind]. rewrite H. cbn [bind].
  exists ((if same_id k (VStr (id l)) i then set_field f v l else l) :: L').
  cbn [map]. rewrite with_field_link. now destruct (same_id k (VStr (id l)) i).
Qed.

Lemma Array_filter_typed (i : Id) (L : list LinkItem) :
  forall k, exists L',
    Array_filter_from k (fun row link =>
       lid <- get link (js "id") ;; Ok (negb (same_id row lid i)))
      (map link_value L) = Ok (map link_value L').
Proof.
  induction L as [|l L IH]; intros k; [now exists []|].
  destruct (IH (S k)) as (L' & H). cbn [map Array_filter_from].
  rewrite get_link_id. cbn [bind]. rewrite H. cbn [bind].
  destruct (same_id k (VStr (id l)) i); cbn [negb];
    [now exists L' | now exists (l :: L')].
Qed.

Lemma Array_findIndex_typed (i : Id) (L : list LinkItem) :
  forall k, exists n,
    Array_findIndex_from k (fun row item =>
       iid <- get item (js "id") ;; Ok (same_id row iid i))
      (map link_value L) = Ok n /\
    (n = -1 \/ Z.of_nat k <= n < Z.of_nat k + Z.of_nat (length L))%Z.
Proof.
  intros k.
  assert (H : exists n, Array_findIndex_from k (fun row item =>
       iid <- get item (js "id") ;; Ok (same_id row iid i))
      (map link_value L) = Ok n).
  { revert k. induction L as [|l L IH]; intros k; [now eexists|].
    cbn [map Array_findIndex_from]. rewrite get_link_id. cbn [bind].
    destruct (same_id k (VStr (id l)) i); [now eexists | apply IH]. }
  destruct H as (n & H). exists n. split; [exact H|].
  apply Array_findIndex_range in H. now rewrite length_map in H.
Qed.

Lemma arrayMove_links (L : list LinkItem) (from to : Z) :
  L <> [] ->
  (-1 <= from < Z.of_nat (length L))%Z ->
  exists L', arrayMove (map link_value L) from to = map link_value L' /\ Permutation L L'.
Proof.
  intros HL Hr.
  assert (HP : Permutation (map link_value L) (arrayMove (map link_value L) from to)).
  { apply arrayMove_Permutation; [destruct L; [contradiction|discriminate]|].
    now rewrite length_map. }
  apply Permutation_sym, Permutation_map_inv in HP as (L' & HL' & HP).
  exists L'. split; [exact HL' | exact HP].
Qed.

(** The handler of an event that carries no JSON text, on a string title
    and link items: it does not throw, and the setter calls leave a string
    title and link items.  (A drag needs a row: with no link at all
    [arrayMove] would make the list [[undefined]].) *)
Lemma handle_typed (s : State) (T : jsstring) (L : list LinkItem) (e : Event) :
  title s = VStr T ->
  links s = map link_value L ->
  is_text_input e = false ->
  (forall a o, e = DragEnd a o -> L <> []) ->
  exists cmds T' L',
    handle s e = Ok cmds /\
    title (commit s cmds) = VStr T' /\ links (commit s cmds) = map link_value L'.
Proof.
  intros Ht Hl Htxt Hdrag.
  destruct e as [uuid|i f v|i|a ov|v|text| | |text|]; try discriminate Htxt;
    cbn [handle].
  - exists [SetLinks (links s ++ [link_value (mkLink uuid [] [])])], T, (L ++ [mkLink uuid [] []]).
    repeat split; [exact Ht|]. cbn. now rewrite Hl, map_app.
  - unfold updateLink, Array_map. rewrite Hl.
    destruct (Array_map_typed i f v L 0) as (L' & ->). cbn [bind].
    exists [SetLinks (map link_value L')], T, L'. repeat split. exact Ht.
  - unfold removeLink, Array_filter. rewrite Hl.
    destruct (Array_filter_typed i L 0) as (L' & ->). cbn [bind].
    exists [SetLinks (map link_value L')], T, L'. repeat split. exact Ht.
  - unfold handleDragEnd. destruct ov as [o|]; [|now exists [], T, L].
    destruct (negb (Id_equal a o)); [|now exists [], T, L].
    unfold Array_findIndex. rewrite Hl.
    destruct (Array_findIndex_typed a L 0) as (n & -> & Hn).
    destruct (Array_findIndex_typed o L 0) as (m & -> & _). cbn [bind].
    destruct (arrayMove_links L n m (Hdrag _ _ eq_refl)) as (L' & -> & _); [lia|].
    exists [SetLinks (map link_value L')], T, L'. repeat split. exact Ht.
  - exists [SetTitle (VStr v)], v, L. repeat split. exact Hl.
  - now exists [SetIsJsonOpen (negb (isJsonOpen s))], T, L.
  - now exists [SetIsReadOnly (negb (isReadOnly s))], T, L.
  - unfold downloadJson, download_name. rewrite Ht. cbn [bind]. now exists [], T, L.
Qed.

(** What the setter calls leave is what the render then reads. *)
Lemma step_of_handle (s : State) (e : Event) (cmds : list Cmd) :
  handle s e = Ok cmds ->
  (calls_setter cmds = true -> App_render (commit s cmds) = Ok tt) ->
  exists s',
    step s e = Ok s' /\
    title s' = title (commit s cmds) /\ links s' = links (commit s cmds) /\
    isJsonOpen s' = isJsonOpen (commit s cmds) /\
    isReadOnly s' = isReadOnly (commit s cmds) /\
    jsonError s' = jsonError (commit s cmds).
Proof.
  unfold step. intros -> Hr. cbn [bind].
  destruct (calls_setter cmds); [rewrite Hr by reflexivity|]; cbn [bind].
  all: destruct (deps_changed s cmds); eexists; (split; [reflexivity|]);
    try apply sync_effect_cells; repeat split.
Qed.

(** A state with a string title and link items renders. *)
Lemma renders_typed (s : State) (T : jsstring) (L : list LinkItem) :
  title s = VStr T -> links s = map link_value L -> App_render s = Ok tt.
Proof.
  destruct s as [t l o r j err]. cbn. intros -> ->. apply typed_renders.
Qed.

(** With a string title and link items, every event that carries no JSON
    text has a next state (a drag, when there is a row to drag). *)
Lemma step_typed_total (T : jsstring) (L : list LinkItem) (s0 : State) (e : Event) :
  is_text_input e = false ->
  (forall a o, e = DragEnd a o -> L <> []) ->
  exists s', step (typed_state T L s0) e = Ok s'.
Proof.
  intros Htxt Hdrag.
  destruct (handle_typed (typed_state T L s0) T L e eq_refl eq_refl Htxt Hdrag)
    as (cmds & T' & L' & Hh & Ht & Hl).
  destruct (step_of_handle _ _ _ Hh) as (s' & Hs & _); [|now exists s'].
  intros _. now apply (renders_typed _ T' L').
Qed.

(** On a string title and link items, add, update and remove always set the
    links, a drag does when it ends on another row, an upload when the file
    is accepted. *)
Lemma mutations_set_links (T : jsstring) (L : list LinkItem) (s0 : State) :
  let s := typed_state T L s0 in
  (forall uuid, sets_links s (ClickAdd uuid) = true) /\
  (forall i f v, sets_links s (EditField i f v) = true) /\
  (forall i, sets_links s (ClickRemove i) = true) /\
  (forall a o, Id_equal a o = false -> sets_links s (DragEnd a (Some o)) = true) /\
  (forall text, accepted text <> None -> sets_links s (FileLoaded text) = true).
Proof.
  cbv zeta. unfold sets_links, typed_state. repeat split.
  - intros i f v. cbn [handle]. unfold updateLink, Array_map. cbn [links].
    now destruct (Array_map_typed i f v L 0) as (L' & ->).
  - intros i. cbn [handle]. unfold removeLink, Array_filter. cbn [links].
    now destruct (Array_filter_typed i L 0) as (L' & ->).
  - intros a o Hne. cbn [handle]. unfold handleDragEnd.
    rewrite Hne. cbn [negb links]. unfold Array_findIndex.
    destruct (Array_findIndex_typed a L 0) as (n & -> & _).
    now destruct (Array_findIndex_typed o L 0) as (m & -> & _).
  - intros text Ha. cbn [handle]. unfold accepted in Ha.
    destruct (JSON_parse text) as [parsed|] eqn:Hp; [|contradiction].
    destruct (accepted_items parsed) as [items|] eqn:Hi; [|contradiction].
    now rewrite (uploadJson_accepted _ _ _ _ Hp Hi).
Qed.

(** C1, as stated: whenever the panel is closed, the text buffer is the
    serialisation of title and links.  The textarea stays mounted while the
    panel is closed and [handleJsonChange] does not look at [isJsonOpen]: a
    text it rejects becomes the buffer, no dependency of the effect changes,
    and the buffer differs from the serialisation with the panel closed. *)
Lemma mirror_broken_by_a_rejected_edit :
  isJsonOpen mounted_state = false /\
  can_dispatch (render mounted_state) (EditJson (js "{")) = true /\
  exists s',
    step mounted_state (EditJson (js "{")) = Ok s' /\
    isJsonOpen s' = false /\
    jsonString s' <> JSON_stringify_data (title s') (links s').
Proof.
  split; [reflexivity|]. split; [reflexivity|].
  eexists. split; [reflexivity|]. split; [reflexivity|].
  intros H. vm_compute in H. discriminate.
Qed.

(** C1, amended: after mount the panel is closed and the text buffer is
    [JSON.stringify({title, items}, null, 2)].  After an event that leaves
    the panel closed the buffer is that serialisation of the new state (a)
    whenever the handler set the links (add, update, remove, a reorder, an
    accepted upload), whatever the buffer was before, (b) when the event
    closed the panel, and (c) whenever it was so before the event, unless
    the event is a text typed into the JSON textarea that
    [handleJsonChange] rejects.  With a string title and link items every
    event that carries no JSON text has a next state (a drag, when there is
    a row to drag), and add, update, remove, a drag onto another row and an
    accepted upload set the links. *)
Theorem mirror_when_closed :
  (isJsonOpen mounted_state = false /\ in_sync mounted_state) /\
  (forall s e s',
     step s e = Ok s' ->
     isJsonOpen s' = false ->
     (sets_links s e = true -> in_sync s') /\
     (e = ToggleJson -> in_sync s') /\
     (in_sync s ->
      (forall text, e = EditJson text -> isReadOnly s = true \/ accepted text <> None) ->
      in_sync s')) /\
  (forall T L s0,
     let s := typed_state T L s0 in
     (forall e, is_text_input e = false ->
        (forall a o, e = DragEnd a o -> L <> []) ->
        exists s', step s e = Ok s') /\
     (forall uuid, sets_links s (ClickAdd uuid) = true) /\
     (forall i f v, sets_links s (EditField i f v) = true) /\
     (forall i, sets_links s (ClickRemove i) = true) /\
     (forall a o, Id_equal a o = false -> sets_links s (DragEnd a (Some o)) = true) /\
     (forall text, accepted text <> None -> sets_links s (FileLoaded text) = true)).
Proof.
  split; [split; reflexivity|].
  split; [|intros T L s0; split;
             [intros e; apply step_typed_total|apply mutations_set_links]].
  intros s e s' Hstep Hclosed.
  destruct (step_inv s e s' Hstep) as (cmds & Hh & Hs').
  assert (Hrun : deps_changed s cmds = true -> in_sync s').
  { intros Hd. rewrite Hd in Hs'. subst s'. now apply effect_restores. }
  split; [|split].
  - unfold sets_links. rewrite Hh. intros H. apply Hrun.
    now apply existsb_SetLinks_deps.
  - intros ->. apply Hrun. simpl in Hh. injection Hh as <-.
    unfold deps_changed. simpl. now destruct (isJsonOpen s).
  - intros Hsync Hedit.
    destruct (deps_changed s cmds) eqn:Hd; [now apply Hrun|].
    assert (Hn : forall str, ~ In (SetJsonString str) cmds).
    { intros str Hin.
      destruct (handle_SetJsonString s e cmds str Hh Hin) as [-> Hr].
      destruct (Hedit str eq_refl) as [Hr'|Ha]; [congruence|].
      apply Ha. unfold accepted.
      destruct (JSON_parse str) as [parsed|] eqn:Hp; [|reflexivity].
      destruct (accepted_items parsed) as [items|] eqn:Hi; [|reflexivity].
      exfalso.
      simpl in Hh. unfold handleJsonChange in Hh. rewrite Hr, Hp in Hh.
      rewrite accepted_items_shape in Hi.
      destruct (Array_isArray parsed); [|destruct (has_items parsed); [|discriminate]];
        injection Hh as <-; discriminate Hd. }
    destruct (commit_without_change s cmds Hd Hn s eq_refl) as (H1 & H2 & H3).
    subst s'. unfold in_sync in *. now rewrite H1, H2, H3.
Qed.

Lemma mirror_when_closed_witness :
  exists s',
    step mounted_state (ClickAdd (js "uuid")) = Ok s' /\ in_sync s'.
Proof.
  eexists. split; [reflexivity|].
  refine (proj1 (proj1 (proj2 mirror_when_closed) mounted_state (ClickAdd (js "uuid")) _
                   eq_refl eq_refl) eq_refl).
Defined.

(** ** C5: save, then load *)

(** *** A quoted string reads back *)

Lemma hex_value_digit (d : N) : (d < 16)%N -> hex_value (hex_digit d) = Some d.
Proof.
  intros H. unfold hex_value, hex_digit, is_digit, in_range, ch. simpl N_of_ascii.
  destruct (N.ltb_spec d 10).
  - replace ((48 <=? 48 + d) && (48 + d <=? 57))%N with true.
    + f_equal. lia.
    + symmetry. apply andb_true_iff. split; apply N.leb_le; lia.
  - replace ((48 <=? 97 + (d - 10)) && (97 + (d - 10) <=? 57))%N with false.
    + replace ((97 <=? 97 + (d - 10)) && (97 + (d - 10) <=? 102))%N with true.
      * f_equal. lia.
      * symmetry. apply andb_true_iff. split; apply N.leb_le; lia.
    + symmetry. apply andb_false_iff. right. apply N.leb_gt. lia.
Qed.

Lemma hex4_unicode_escape (c : code_unit) :
  (c < 65536)%N ->
  hex4 (hex_digit (c / 4096 mod 16)) (hex_digit (c / 256 mod 16))
       (hex_digit (c / 16 mod 16)) (hex_digit (c mod 16)) = Some c.
Proof.
  intros H. unfold hex4.
  rewrite !hex_value_digit by (apply N.mod_lt; lia).
  f_equal.
  pose proof (N.div_mod c 16 ltac:(lia)) as H0.
  pose proof (N.div_mod (c / 16) 16 ltac:(lia)) as H1.
  pose proof (N.div_mod (c / 256) 16 ltac:(lia)) as H2.
  rewrite N.Div0.div_div in H1. change (16 * 16)%N with 256%N in H1.
  replace (c / 256 / 16)%N with (c / 4096)%N in H2
    by (now rewrite N.Div0.div_div).
  assert (H3 : (c / 4096 < 16)%N) by (apply N.Div0.div_lt_upper_bound; lia).
  rewrite (N.mod_small (c / 4096) 16 H3).
  pose proof (N.mod_lt c 16 ltac:(lia)).
  pose proof (N.mod_lt (c / 16) 16 ltac:(lia)).
  pose proof (N.mod_lt (c / 256) 16 ltac:(lia)).
  lia.
Qed.

Lemma parse_unicode_escape (c : code_unit) (t : jsstring) :
  (c < 65536)%N ->
  parse_string_body (unicode_escape c ++ t) = cons_fst c (parse_string_body t).
Proof.
  intros H. unfold unicode_escape. cbn [app parse_string_body].
  change (N.eqb (backslash) (dquote)) with false.
  change (N.eqb (backslash) (backslash)) with true.
  change (N.eqb (ch "u") (ch "u")) with true. cbv iota.
  now rewrite hex4_unicode_escape.
Qed.

(** What [quote_unit] writes for a code unit reads back as that code
    unit. *)
Lemma parse_quote_unit (c : code_unit) (t : jsstring) :
  parse_string_body (quote_unit c ++ t) = cons_fst c (parse_string_body t).
Proof.
  unfold quote_unit.
  repeat match goal with
  | |- context [if N.eqb c ?k then _ else _] =>
      destruct (N.eqb_spec c k); [subst c; reflexivity|]
  end.
  destruct (N.ltb_spec c 32).
  { apply parse_unicode_escape. lia. }
  destruct (is_high_surrogate c || is_low_surrogate c) eqn:E.
  { apply parse_unicode_escape.
    unfold is_high_surrogate, is_low_surrogate, in_range in E.
    apply orb_true_iff in E as [E|E]; apply andb_true_iff in E as [_ E];
      apply N.leb_le in E; lia. }
  cbn [app parse_string_body].
  destruct (N.eqb_spec c (dquote)); [contradiction|].
  destruct (N.eqb_spec c (backslash)); [contradiction|].
  destruct (N.ltb_spec c 32); [lia|]. reflexivity.
Qed.

Lemma parse_surrogate (c : code_unit) (t : jsstring) :
  (55296 <= c)%N ->
  parse_string_body (c :: t) = cons_fst c (parse_string_body t).
Proof.
  intros H. cbn [parse_string_body]. unfold dquote, backslash.
  destruct (N.eqb_spec c 34); [lia|].
  destruct (N.eqb_spec c 92); [lia|].
  destruct (N.ltb_spec c 32); [lia|]. reflexivity.
Qed.

Lemma quote_body_pair (c d : code_unit) (r : jsstring) :
  quote_body (c :: d :: r) =
    if is_high_surrogate c && is_low_surrogate d then c :: d :: quote_body r
    else quote_unit c ++ quote_body (d :: r).
Proof. reflexivity. Qed.

Lemma parse_quote_body_le (n : nat) :
  forall s rest, length s <= n ->
    parse_string_body (quote_body s ++ dquote :: rest) = Some (s, rest).
Proof.
  induction n as [|n IH]; intros s rest Hlen.
  - destruct s; [reflexivity|simpl in Hlen; lia].
  - destruct s as [|c [|d r]]; [reflexivity| |].
    + cbn [quote_body]. rewrite parse_quote_unit. reflexivity.
    + rewrite quote_body_pair.
      destruct (is_high_surrogate c && is_low_surrogate d) eqn:E.
      * apply andb_true_iff in E as [Ec Ed].
        unfold is_high_surrogate, is_low_surrogate, in_range in Ec, Ed.
        apply andb_true_iff in Ec as [Ec _]. apply andb_true_iff in Ed as [Ed _].
        apply N.leb_le in Ec, Ed.
        cbn [app]. rewrite (parse_surrogate c) by lia.
        rewrite (parse_surrogate d) by lia.
        rewrite IH by (simpl in Hlen; lia). reflexivity.
      * rewrite <- app_assoc, parse_quote_unit.
        rewrite IH by (simpl in *; lia). reflexivity.
Qed.

Lemma parse_quote_body (s rest : jsstring) :
  parse_string_body (quote_body s ++ dquote :: rest) = Some (s, rest).
Proof. apply (parse_quote_body_le (length s)). lia. Qed.

Lemma Quote_app (s rest : jsstring) : QuoteJSONString s ++ rest = quoted s rest.
Proof. unfold QuoteJSONString, quoted. cbn [app]. now rewrite <- app_assoc. Qed.

Lemma Serialize_item (l : LinkItem) :
  SerializeJSONProperty (js "    ") (link_value l) = Some (item_text l []).
Proof.
  unfold link_value. cbn [SerializeJSONProperty]. f_equal.
  unfold wrap, join. unfold item_text.
  repeat rewrite <- app_assoc. cbn [app js map list_ascii_of_string].
  repeat (rewrite <- app_assoc || rewrite Quote_app || cbn [app]).
  reflexivity.
Qed.

Lemma item_text_app (l : LinkItem) (a b : jsstring) :
  item_text l a ++ b = item_text l (a ++ b).
Proof.
  unfold item_text, quoted. cbn [app js map list_ascii_of_string].
  repeat (rewrite <- app_assoc; cbn [app]). reflexivity.
Qed.

Lemma Serialize_array (stepback : jsstring) (xs : list value) :
  SerializeJSONProperty stepback (VArr xs) =
    Some (wrap (js "[") (js "]") stepback (stepback ++ gap)
            (map (fun x => match SerializeJSONProperty (stepback ++ gap) x with
                           | Some str => str
                           | None => js "null"
                           end) xs)).
Proof.
  reflexivity.
Qed.

Lemma join_items (l : LinkItem) (L : list LinkItem) (rest : jsstring) :
  join (ch "," :: ch "010" :: js "    ") (map (fun l => item_text l []) (l :: L))
    ++ ch "010" :: js "  ]" ++ rest
  = items_tail l L rest.
Proof.
  revert l. induction L as [|l' L IH]; intros l.
  - cbn [map join items_tail]. now rewrite item_text_app.
  - change (map (fun l0 => item_text l0 []) (l :: l' :: L))
      with (item_text l [] :: map (fun l0 => item_text l0 []) (l' :: L)).
    change (join ?sep (?x :: map ?f (l' :: L)))
      with (x ++ sep ++ join sep (map f (l' :: L))).
    rewrite <- !app_assoc, IH, item_text_app. reflexivity.
Qed.

Lemma Serialize_items (L : list LinkItem) :
  SerializeJSONProperty (js "  ") (VArr (map link_value L)) = Some (items_text L []).
Proof.
  rewrite Serialize_array. f_equal. rewrite map_map.
  rewrite (map_ext _ (fun l => item_text l [])) by (intros l; now rewrite Serialize_item).
  destruct L as [|l L]; [reflexivity|].
  unfold items_text. rewrite <- (join_items l L []). reflexivity.
Qed.

Lemma items_text_app (L : list LinkItem) (a b : jsstring) :
  items_text L a ++ b = items_text L (a ++ b).
Proof.
  destruct L as [|l L]; [reflexivity|].
  unfold items_text. cbn [app js map list_ascii_of_string]. do 6 f_equal.
  revert l. induction L as [|l' L IH]; intros l; cbn [items_tail].
  - now rewrite item_text_app.
  - rewrite item_text_app. f_equal. cbn [app js map list_ascii_of_string].
    do 6 f_equal. apply IH.
Qed.

Lemma stringify_typed (T : jsstring) (L : list LinkItem) :
  JSON_stringify_data (VStr T) (map link_value L) = data_text T L.
Proof.
  unfold JSON_stringify_data.
  remember (VArr (map link_value L)) as items eqn:Hitems.
  cbn [SerializeJSONProperty]. change ([] ++ gap) with (js "  ").
  subst items. rewrite Serialize_items.
  unfold wrap, join, data_text.
  repeat (rewrite <- app_assoc || rewrite Quote_app || rewrite items_text_app
          || cbn [app js map list_ascii_of_string]).
  reflexivity.
Qed.

(** *** The text of a typed state parses to its value *)

Lemma parse_quoted_value (f : nat) (s rest : jsstring) :
  parse_value (S f) (quoted s rest) = Some (VStr s, rest).
Proof.
  unfold quoted. cbn [parse_value]. cbn. now rewrite parse_quote_body.
Qed.

Lemma parse_item (f : nat) (l : LinkItem) (rest : jsstring) :
  parse_value (S (S (S (S (S f))))) (item_text l rest) = Some (link_value l, rest).
Proof.
  unfold item_text, quoted. cbn.
  rewrite parse_quote_body. cbn.
  rewrite parse_quote_body. cbn.
  rewrite parse_quote_body. cbn.
  reflexivity.
Qed.

Lemma items_tail_head (l : LinkItem) (L : list LinkItem) (rest : jsstring) :
  exists X, items_tail l L rest = ch "{" :: X.
Proof.
  destruct L; cbn [items_tail]; unfold item_text;
    cbn [app js map list_ascii_of_string]; eauto.
Qed.

Lemma items_text_head (L : list LinkItem) (rest : jsstring) :
  exists X, items_text L rest = ch "[" :: X.
Proof. destruct L; unfold items_text; cbn [app js map list_ascii_of_string]; eauto. Qed.

Lemma skip_ws_items_tail (l : LinkItem) (L : list LinkItem) (rest : jsstring) :
  skip_ws (items_tail l L rest) = items_tail l L rest.
Proof. destruct (items_tail_head l L rest) as [X ->]. reflexivity. Qed.

Lemma parse_items_tail (L : list LinkItem) :
  forall l f acc rest,
    parse_elements (length L + 6 + f) (items_tail l L rest) acc
    = Some (VArr (acc ++ map link_value (l :: L)), rest).
Proof.
  induction L as [|l' L IH]; intros l f acc rest.
  - cbn [length items_tail Nat.add]. rewrite parse_elements_S, parse_item.
    reflexivity.
  - cbn [length items_tail Nat.add]. rewrite parse_elements_S.
    replace (length L + 6 + f) with (S (S (S (S (S (S (length L + f))))))) by lia.
    rewrite parse_item.
    replace (S (S (S (S (S (S (length L + f))))))) with (length L + 6 + f) by lia.
    cbn. rewrite skip_ws_items_tail, IH, <- app_assoc. reflexivity.
Qed.

Lemma parse_items (f : nat) (L : list LinkItem) (rest : jsstring) :
  parse_value (S (length L + 6 + f)) (items_text L rest)
  = Some (VArr (map link_value L), rest).
Proof.
  destruct L as [|l L]; [reflexivity|].
  unfold items_text.
  destruct (items_tail_head l L rest) as [X HX].
  cbn [parse_value js map list_ascii_of_string app].
  change (N.eqb (N_of_ascii "[") (ch "[")) with true. cbv iota.
  change (skip_ws (_ :: _ :: _ :: _ :: _ :: items_tail l L rest))
    with (skip_ws (items_tail l L rest)).
  rewrite skip_ws_items_tail, HX. cbv iota. change (N.eqb (ch "{") (ch "]")) with false. cbv iota.
  rewrite <- HX.
  replace (length (l :: L) + 6 + f) with (length L + 6 + S f) by (simpl; lia).
  rewrite parse_items_tail. reflexivity.
Qed.

Lemma skip_ws_items_text (L : list LinkItem) (rest : jsstring) :
  skip_ws (items_text L rest) = items_text L rest.
Proof. destruct (items_text_head L rest) as [X ->]. reflexivity. Qed.

(** The steps of [parse_value] and [parse_members] through an object laid
    out by [JSON.stringify]: white space [w] after the brace and after each
    comma, [": "] after each key. *)

Lemma skip_ws_app (w s : jsstring) :
  forallb is_ws w = true -> skip_ws (w ++ s) = skip_ws s.
Proof.
  induction w as [|c w IH]; [reflexivity|]. cbn [forallb app skip_ws].
  intros H. apply andb_true_iff in H as [-> H]. now apply IH.
Qed.

Lemma skip_ws_quoted (s rest : jsstring) : skip_ws (quoted s rest) = quoted s rest.
Proof. reflexivity. Qed.

Lemma parse_object_open (f : nat) (w k r : jsstring) :
  forallb is_ws w = true ->
  parse_value (S f) (ch "{" :: w ++ quoted k r) = parse_members f (quoted k r) [].
Proof.
  intros Hw. cbn [parse_value].
  change (N.eqb (ch "{") (ch "[")) with false.
  change (N.eqb (ch "{") (ch "{")) with true. cbv iota.
  rewrite (skip_ws_app _ _ Hw), skip_ws_quoted. reflexivity.
Qed.

Lemma parse_member_next (f : nat) (k text w k' r' : jsstring) (v : value)
    (acc : list (jsstring * value)) :
  forallb is_ws w = true ->
  skip_ws text = text ->
  parse_value f text = Some (v, ch "," :: w ++ quoted k' r') ->
  parse_members (S f) (quoted k (ch ":" :: ch " " :: text)) acc
  = parse_members f (quoted k' r') (set_prop acc k v).
Proof.
  intros Hw Ht Hv. rewrite parse_members_S. unfold quoted at 1.
  change (negb (N.eqb (dquote) (dquote))) with false. cbv iota.
  rewrite parse_quote_body.
  change (skip_ws (ch ":" :: ch " " :: text)) with (ch ":" :: ch " " :: text).
  cbv iota. change (negb (N.eqb (ch ":") (ch ":"))) with false. cbv iota.
  change (skip_ws (ch " " :: text)) with (skip_ws text).
  rewrite Ht, Hv.
  change (skip_ws (ch "," :: w ++ quoted k' r')) with (ch "," :: w ++ quoted k' r').
  cbv iota. change (N.eqb (ch ",") (ch ",")) with true. cbv iota.
  now rewrite (skip_ws_app _ _ Hw), skip_ws_quoted.
Qed.

Lemma parse_member_last (f : nat) (k text w rest : jsstring) (v : value)
    (acc : list (jsstring * value)) :
  forallb is_ws w = true ->
  skip_ws text = text ->
  parse_value f text = Some (v, w ++ ch "}" :: rest) ->
  parse_members (S f) (quoted k (ch ":" :: ch " " :: text)) acc
  = Some (VObj (set_prop acc k v), rest).
Proof.
  intros Hw Ht Hv. rewrite parse_members_S. unfold quoted at 1.
  change (negb (N.eqb (dquote) (dquote))) with false. cbv iota.
  rewrite parse_quote_body.
  change (skip_ws (ch ":" :: ch " " :: text)) with (ch ":" :: ch " " :: text).
  cbv iota. change (negb (N.eqb (ch ":") (ch ":"))) with false. cbv iota.
  change (skip_ws (ch " " :: text)) with (skip_ws text).
  rewrite Ht, Hv, (skip_ws_app _ _ Hw).
  reflexivity.
Qed.

Lemma parse_data (f : nat) (T : jsstring) (L : list LinkItem) :
  parse_value (S (S (S (S (length L + 6 + f))))) (data_text T L)
  = Some (VObj [(js "title", VStr T); (js "items", VArr (map link_value L))], []).
Proof.
  set (w := [ch "010"; ch " "; ch " "]).
  set (r2 := ch ":" :: ch " " :: items_text L ([ch "010"] ++ ch "}" :: [])).
  set (r1 := ch ":" :: ch " " :: quoted T (ch "," :: w ++ quoted (js "items") r2)).
  transitivity (parse_members (S (S (S (length L + 6 + f)))) (quoted (js "title") r1) []).
  { exact (parse_object_open _ w (js "title") r1 eq_refl). }
  transitivity (parse_members (S (S (length L + 6 + f))) (quoted (js "items") r2)
                  (set_prop [] (js "title") (VStr T))).
  { apply (parse_member_next _ (js "title") _ w (js "items") r2 (VStr T) []).
    - reflexivity.
    - reflexivity.
    - apply parse_quoted_value. }
  apply (parse_member_last _ (js "items") _ [ch "010"] [] (VArr (map link_value L))).
  - reflexivity.
  - apply skip_ws_items_text.
  - apply parse_items.
Qed.

Lemma length_quoted (s rest : jsstring) : length rest < length (quoted s rest).
Proof. unfold quoted. cbn [length]. rewrite length_app. cbn [length]. lia. Qed.

Lemma length_item_text (l : LinkItem) (rest : jsstring) :
  length rest < length (item_text l rest).
Proof.
  unfold item_text, quoted. cbn [js map list_ascii_of_string app].
  repeat (cbn [length] || rewrite length_app). lia.
Qed.

Lemma length_items_tail (L : list LinkItem) :
  forall l rest, length L + length rest < length (items_tail l L rest).
Proof.
  induction L as [|l' L IH]; intros l rest; cbn [items_tail].
  - pose proof (length_item_text l (ch "010" :: js "  ]" ++ rest)) as H.
    cbn [js map list_ascii_of_string app length] in *. lia.
  - pose proof (length_item_text l (js "," ++ ch "010" :: js "    " ++ items_tail l' L rest)) as H.
    specialize (IH l' rest).
    cbn [js map list_ascii_of_string app length] in *. lia.
Qed.

Lemma length_items_text (L : list LinkItem) (rest : jsstring) :
  length L < length (items_text L rest).
Proof.
  destruct L as [|l L]; [cbn; lia|].
  unfold items_text. cbn [js map list_ascii_of_string app length].
  pose proof (length_items_tail L l rest). lia.
Qed.

Lemma length_data_text (T : jsstring) (L : list LinkItem) :
  length L + 10 <= length (data_text T L).
Proof.
  pose proof (length_items_text L (ch "010" :: js "}")) as H.
  unfold data_text, quoted. cbn [js map list_ascii_of_string app] in *.
  repeat (cbn [length] || rewrite length_app). lia.
Qed.

(** What [downloadJson] writes for a string title and link items parses back
    to the object it was made from. *)
Lemma JSON_parse_stringify_typed (T : jsstring) (L : list LinkItem) :
  JSON_parse (JSON_stringify_data (VStr T) (map link_value L))
  = Some (VObj [(js "title", VStr T); (js "items", VArr (map link_value L))]).
Proof.
  rewrite stringify_typed. unfold JSON_parse.
  replace (skip_ws (data_text T L)) with (data_text T L) by reflexivity.
  pose proof (length_data_text T L) as Hlen.
  replace (S (length (data_text T L)))
    with (S (S (S (S (length L + 6 + (length (data_text T L) - length L - 9))))))
    by lia.
  rewrite parse_data. reflexivity.
Qed.

(** C5, as stated: loading the text [downloadJson] wrote for title [T] and
    links [L] gives back [L] and [T].  An empty title is written as
    an empty string, which [uploadJson] reads as falsy and replaces by the
    default. *)
Lemma round_trip_loses_the_empty_title :
  exists d s',
    downloadJson (typed_state [] [] mounted_state) = Ok d /\
    file_text d = JSON_stringify_data (VStr []) [] /\
    step mounted_state (FileLoaded (file_text d)) = Ok s' /\
    links s' = [] /\
    title s' = VStr (js "Untitled List") /\
    title s' <> VStr [].
Proof.
  do 2 eexists. split; [reflexivity|]. split; [reflexivity|].
  split; [reflexivity|]. split; [reflexivity|]. split; [reflexivity|].
  discriminate.
Qed.

(** C5, amended: the text [downloadJson] writes for a string title [T] and
    link items [L] is the serialisation of [{title: T, items: L}], and
    [uploadJson] on that text sets the links to [L] and the title to [T]
    when [T] is not empty, and to "Untitled List" when it is. *)
Theorem save_then_load (T : jsstring) (L : list LinkItem) (s0 s : State) :
  exists d s',
    downloadJson (typed_state T L s0) = Ok d /\
    file_text d = JSON_stringify_data (VStr T) (map link_value L) /\
    step s (FileLoaded (file_text d)) = Ok s' /\
    links s' = map link_value L /\
    title s' = VStr (match T with [] => js "Untitled List" | _ => T end).
Proof.
  unfold downloadJson, typed_state. cbn [title links download_name bind].
  eexists. eexists. split; [reflexivity|]. split; [reflexivity|].
  cbn [file_text].
  pose proof (JSON_parse_stringify_typed T L) as Hp.
  rewrite (step_FileLoaded_accepted _ s _ (map link_value L) Hp eq_refl).
  cbv zeta.
  assert (Hu : uploaded_title
                 (VObj [(js "title", VStr T); (js "items", VArr (map link_value L))])
               = VStr (match T with [] => js "Untitled List" | _ => T end))
    by now destruct T.
  rewrite Hu, typed_renders. cbn [bind]. split; [reflexivity|].
  match goal with |- context [commit ?s1 _] =>
    destruct (sync_effect_cells s1) as (Ht & Hl & _) end.
  rewrite Ht, Hl. split; reflexivity.
Qed.


(** * Further properties of the handlers *)

(** ** Add, update and remove on link items *)

Lemma settle_cells (s : State) :
  title (settle s) = title s /\ links (settle s) = links s /\
  isJsonOpen (settle s) = isJsonOpen s /\ isReadOnly (settle s) = isReadOnly s /\
  jsonError (settle s) = jsonError s.
Proof. exact (sync_effect_cells s). Qed.

Lemma step_of_SetLinks (s : State) (e : Event) (items : list value) :
  handle s e = Ok [SetLinks items] ->
  App_render (commit s [SetLinks items]) = Ok tt ->
  step s e = Ok (settle (commit s [SetLinks items])).
Proof. unfold step. intros -> Hr. cbn [bind calls_setter existsb orb]. now rewrite Hr. Qed.

(** The links of a state that renders, replaced by link items: the state
    renders. *)
Lemma renders_SetLinks (s : State) (L : list LinkItem) :
  renders s -> renders (settle (commit s [SetLinks (map link_value L)])).
Proof.
  intros H. unfold renders.
  rewrite (App_render_same (commit s [SetLinks (map link_value L)])
             (settle (commit s [SetLinks (map link_value L)]))).
  - now apply renders_links.
  - apply settle_cells.
  - apply settle_cells.
  - apply settle_cells.
Qed.

Lemma handle_list_edit (s : State) (L : list LinkItem) (e : Event) :
  links s = map link_value L ->
  is_list_edit e = true ->
  handle s e = Ok [SetLinks (map link_value (next_items e L))].
Proof.
  intros Hl He.
  destruct e as [uuid|[[| |b|n|i|xs|ps]|r] f v|[[| |b|n|i|xs|ps]|r]| | | | | | |];
    try discriminate He; cbn [handle next_items].
  - unfold addLink. rewrite Hl, map_app. reflexivity.
  - fold (str_id i). unfold updateLink, Array_map.
    rewrite Hl, Array_map_links. reflexivity.
  - fold (str_id i). unfold removeLink, Array_filter.
    rewrite Hl, Array_filter_links. reflexivity.
Qed.

Lemma step_list_edit (s : State) (L : list LinkItem) (e : Event) :
  renders s ->
  links s = map link_value L ->
  is_list_edit e = true ->
  exists s',
    step s e = Ok s' /\ links s' = map link_value (next_items e L) /\ renders s'.
Proof.
  intros Hs Hl He.
  rewrite (step_of_SetLinks _ _ _ (handle_list_edit s L e Hl He))
    by now apply renders_links.
  eexists. split; [reflexivity|]. split; [|now apply renders_SetLinks].
  now destruct (settle_cells (commit s [SetLinks (map link_value (next_items e L))]))
    as (_ & -> & _).
Qed.

(** A run of adds, updates and removes ends with the link items that
    [next_items] gives, event after event. *)
Lemma run_list_edits (es : list Event) :
  forall s L,
    renders s ->
    links s = map link_value L ->
    forallb is_list_edit es = true ->
    links_of (run s es) = Ok (map link_value (fold_left (fun L e => next_items e L) es L)).
Proof.
  induction es as [|e es IH]; intros s L Hr Hl Hes.
  - cbn. now rewrite Hl.
  - cbn [forallb] in Hes. apply andb_true_iff in Hes as [He Hes].
    destruct (step_list_edit s L e Hr Hl He) as (s' & Hs & Hl' & Hr').
    cbn [run fold_left]. rewrite Hs. cbn [bind]. now apply IH.
Qed.

Lemma filter_id_notin (i : jsstring) (L : list LinkItem) :
  ~ In i (map id L) -> filter (fun l => negb (str_eqb (id l) i)) L = L.
Proof.
  induction L as [|l L IH]; [reflexivity|]. cbn [map In filter]. intros H.
  destruct (str_eqb (id l) i) eqn:E.
  - apply str_eqb_eq in E. exfalso. apply H. now left.
  - cbn [negb]. f_equal. apply IH. intros Hin. apply H. now right.
Qed.

Lemma update_id_notin (i : jsstring) (f : field) (v : jsstring) (L : list LinkItem) :
  ~ In i (map id L) ->
  map (fun l => if str_eqb (id l) i then set_field f v l else l) L = L.
Proof.
  induction L as [|l L IH]; [reflexivity|]. cbn [map In]. intros H.
  destruct (str_eqb (id l) i) eqn:E.
  - apply str_eqb_eq in E. exfalso. apply H. now left.
  - f_equal. apply IH. intros Hin. apply H. now right.
Qed.

Lemma set_field_id (f : field) (v : jsstring) (l : LinkItem) : id (set_field f v l) = id l.
Proof. now destruct f. Qed.



(** X2: in a state the page shows, two [updateLink] of the same field of
    the same id leave what the second alone leaves; updates of the label and of the url commute,
    whatever the two ids; an update for an id that no item has leaves the
    list as it is. *)
Theorem updates_compose (s : State) (L : list LinkItem) :
  renders s ->
  links s = map link_value L ->
  (forall i f v v',
     links_of (run s [EditField (str_id i) f v; EditField (str_id i) f v'])
     = links_of (run s [EditField (str_id i) f v'])) /\
  (forall i j a b,
     links_of (run s [EditField (str_id i) Label a; EditField (str_id j) Url b])
     = links_of (run s [EditField (str_id j) Url b; EditField (str_id i) Label a])) /\
  (forall i f v, ~ In i (map id L) ->
     links_of (run s [EditField (str_id i) f v]) = Ok (links s)).
Proof.
  intros Hr Hl. split; [|split].
  - intros i f v v'.
    rewrite (run_list_edits [EditField (str_id i) f v; EditField (str_id i) f v'] s L Hr Hl) by reflexivity.
    rewrite (run_list_edits [EditField (str_id i) f v'] s L Hr Hl) by reflexivity.
    cbn [fold_left next_items str_id]. do 2 f_equal. rewrite map_map.
    apply map_ext. intros l. destruct (str_eqb (id l) i) eqn:E.
    + rewrite set_field_id, E. now destruct f.
    + now rewrite E.
  - intros i j a b.
    rewrite (run_list_edits [EditField (str_id i) Label a; EditField (str_id j) Url b] s L Hr Hl) by reflexivity.
    rewrite (run_list_edits [EditField (str_id j) Url b; EditField (str_id i) Label a] s L Hr Hl) by reflexivity.
    cbn [fold_left next_items str_id]. do 2 f_equal. rewrite !map_map.
    apply map_ext. intros l.
    destruct (str_eqb (id l) i) eqn:Ei, (str_eqb (id l) j) eqn:Ej;
      cbn [set_field id]; rewrite ?Ei, ?Ej; reflexivity.
  - intros i f v Hn.
    rewrite (run_list_edits [EditField (str_id i) f v] s L Hr Hl) by reflexivity.
    cbn [fold_left next_items str_id]. now rewrite (update_id_notin _ _ _ _ Hn), Hl.
Qed.

Lemma updates_compose_witness :
  links_of (run mounted_state [EditField (str_id (js "1")) Label (js "a"); EditField (str_id (js "1")) Label (js "b")])
  = links_of (run mounted_state [EditField (str_id (js "1")) Label (js "b")]).
Proof.
  exact (proj1 (updates_compose mounted_state initial_links eq_refl eq_refl)
           (js "1") Label (js "a") (js "b")).
Defined.

(** X3: in a state the page shows, after [removeLink] no item has the id; removing twice is removing
    once; two removals commute; removing an id that no item has leaves the
    list as it is. *)
Theorem removes_compose (s : State) (L : list LinkItem) :
  renders s ->
  links s = map link_value L ->
  (forall i, exists L',
     links_of (run s [ClickRemove (str_id i)]) = Ok (map link_value L') /\
     ~ In i (map id L') /\
     links_of (run s [ClickRemove (str_id i); ClickRemove (str_id i)]) = Ok (map link_value L')) /\
  (forall i j,
     links_of (run s [ClickRemove (str_id i); ClickRemove (str_id j)])
     = links_of (run s [ClickRemove (str_id j); ClickRemove (str_id i)])) /\
  (forall i, ~ In i (map id L) -> links_of (run s [ClickRemove (str_id i)]) = Ok (links s)).
Proof.
  intros Hr Hl. split; [|split].
  - intros i. exists (filter (fun l => negb (str_eqb (id l) i)) L).
    assert (Hn : ~ In i (map id (filter (fun l => negb (str_eqb (id l) i)) L))).
    { intros Hin. apply in_map_iff in Hin as (l & Hid & Hf).
      apply filter_In in Hf as [_ Hf]. rewrite <- Hid, str_eqb_refl in Hf. discriminate. }
    split; [|split; [exact Hn|]].
    + now rewrite (run_list_edits [ClickRemove (str_id i)] s L Hr Hl).
    + rewrite (run_list_edits [ClickRemove (str_id i); ClickRemove (str_id i)] s L Hr Hl) by reflexivity.
      cbn [fold_left next_items str_id]. now rewrite (filter_id_notin _ _ Hn).
  - intros i j.
    rewrite (run_list_edits [ClickRemove (str_id i); ClickRemove (str_id j)] s L Hr Hl) by reflexivity.
    rewrite (run_list_edits [ClickRemove (str_id j); ClickRemove (str_id i)] s L Hr Hl) by reflexivity.
    cbn [fold_left next_items str_id]. do 2 f_equal. clear Hl.
    induction L as [|l L IH]; [reflexivity|]. cbn [filter].
    destruct (str_eqb (id l) i) eqn:Ei, (str_eqb (id l) j) eqn:Ej;
      cbn [negb filter]; rewrite ?Ei, ?Ej; cbn [negb]; rewrite ?IH; reflexivity.
  - intros i Hn.
    rewrite (run_list_edits [ClickRemove (str_id i)] s L Hr Hl) by reflexivity.
    cbn [fold_left next_items str_id]. now rewrite (filter_id_notin _ _ Hn), Hl.
Qed.

Lemma removes_compose_witness :
  links_of (run mounted_state [ClickRemove (str_id (js "1")); ClickRemove (str_id (js "2"))])
  = links_of (run mounted_state [ClickRemove (str_id (js "2")); ClickRemove (str_id (js "1"))]).
Proof.
  exact (proj1 (proj2 (removes_compose mounted_state initial_links eq_refl eq_refl))
           (js "1") (js "2")).
Defined.

(** ** Drag and drop again *)

Lemma index_of_None (i : jsstring) (L : list LinkItem) :
  index_of i L = None <-> ~ In i (map id L).
Proof.
  split.
  - intros H Hin. destruct (index_of_In _ _ Hin) as [n Hn]. congruence.
  - intros H. destruct (index_of i L) as [n|] eqn:E; [|reflexivity].
    destruct (index_of_nth _ _ _ E) as (l & Hl & Hid & _).
    exfalso. apply H. rewrite <- Hid. apply in_map. now apply nth_error_In with n.
Qed.


Lemma handleDragEnd_links (s : State) (L : list LinkItem) (a o : jsstring) :
  links s = map link_value L ->
  a <> o ->
  handleDragEnd (str_id a) (Some (str_id o)) s
  = Ok [SetLinks (arrayMove (map link_value L) (found_index a L) (found_index o L))].
Proof.
  intros Hl Hne. unfold handleDragEnd, found_index.
  cbn [Id_equal str_id strict_eq].
  apply str_eqb_neq in Hne. rewrite Hne. cbn [negb]. rewrite Hl.
  unfold Array_findIndex. fold (str_id a). fold (str_id o).
  rewrite !Array_findIndex_links. cbn [bind Nat.add].
  destruct (index_of a L), (index_of o L); reflexivity.
Qed.

Lemma arrayMove_typed (L : list LinkItem) (i j : nat) (x : LinkItem) :
  nth_error L i = Some x ->
  j < length L ->
  arrayMove (map link_value L) (Z.of_nat i) (Z.of_nat j)
  = map link_value (firstn j (remove_at i L) ++ x :: skipn j (remove_at i L)).
Proof.
  intros Hx Hj.
  rewrite (arrayMove_in_range _ i j (link_value x)).
  - rewrite remove_at_map. now rewrite firstn_map, skipn_map, map_app.
  - now rewrite nth_error_map, Hx.
  - now rewrite length_map.
Qed.

(** A target that [findIndex] does not find: the element goes last. *)
Lemma arrayMove_to_end (xs : list value) (i : nat) (x : value) :
  nth_error xs i = Some x ->
  arrayMove xs (Z.of_nat i) (-1) = remove_at i xs ++ [x].
Proof.
  intros Hi.
  assert (Hlt : i < length xs) by (apply nth_error_Some; congruence).
  pose proof (remove_at_length xs i Hlt) as Hlen.
  unfold arrayMove. cbn [Z.ltb Z.compare].
  rewrite (splice_start_nat _ i) by lia.
  rewrite (firstn_1_skipn _ _ _ Hi). cbn [length nth].
  replace (i + 1) with (S i) by lia. fold (remove_at i xs).
  replace (Z.of_nat (length xs) + -1)%Z with (Z.of_nat (length (remove_at i xs))) by lia.
  rewrite splice_start_nat by lia.
  now rewrite firstn_all, skipn_all.
Qed.

(** A source that [findIndex] does not find: [splice(-1, 1)] takes the last
    element. *)
Lemma arrayMove_from_missing (xs : list value) (to : Z) :
  xs <> [] ->
  arrayMove xs (-1) to = arrayMove xs (Z.of_nat (length xs) - 1) to.
Proof.
  intros Hne.
  assert (Hlen : 0 < length xs) by (destruct xs; [contradiction|cbn; lia]).
  unfold arrayMove.
  replace (splice_start (Z.of_nat (length xs)) (Z.of_nat (length xs) - 1))
    with (splice_start (Z.of_nat (length xs)) (-1)); [reflexivity|].
  unfold splice_start. cbn [Z.ltb Z.compare].
  destruct (Z.ltb_spec (Z.of_nat (length xs) - 1) 0); lia.
Qed.







Lemma remove_last_append {A} (L : list A) (x : A) :
  nth_error L (length L - 1) = Some x ->
  remove_at (length L - 1) L ++ [x] = L.
Proof.
  intros Hx.
  assert (Hlt : length L - 1 < length L) by (apply nth_error_Some; congruence).
  pose proof (remove_at_split L _ x Hx) as Hs.
  unfold remove_at. rewrite (skipn_all2 L) in * by lia.
  rewrite app_nil_r. now symmetry.
Qed.

(** X5: [handleDragEnd] on link items, with string ids [findIndex] does not
    find.  With the target id missing, the dragged item goes to the end;
    with the dragged id missing, the last item is the one that moves; with
    both missing, a list that is not empty keeps its order (and [setLinks]
    is still called), and the empty list becomes [[undefined]], which the
    next render cannot show: it throws where [App] reads [link.id]. *)
Theorem drag_with_missing_ids (s : State) (L : list LinkItem) (a o : jsstring) :
  links s = map link_value L ->
  a <> o ->
  (forall i x, index_of a L = Some i -> nth_error L i = Some x -> ~ In o (map id L) ->
     handleDragEnd (str_id a) (Some (str_id o)) s
     = Ok [SetLinks (map link_value (remove_at i L ++ [x]))]) /\
  (forall j x, ~ In a (map id L) -> index_of o L = Some j ->
     nth_error L (length L - 1) = Some x ->
     let R := remove_at (length L - 1) L in
     handleDragEnd (str_id a) (Some (str_id o)) s
     = Ok [SetLinks (map link_value (firstn j R ++ x :: skipn j R))]) /\
  (~ In a (map id L) -> ~ In o (map id L) -> L <> [] ->
     handleDragEnd (str_id a) (Some (str_id o)) s = Ok [SetLinks (links s)]) /\
  (L = [] ->
     handleDragEnd (str_id a) (Some (str_id o)) s = Ok [SetLinks [VUndef]] /\
     step s (DragEnd (str_id a) (Some (str_id o))) = Throw TypeError).
Proof.
  intros Hl Hne.
  assert (Hempty : L = [] ->
     handleDragEnd (str_id a) (Some (str_id o)) s = Ok [SetLinks [VUndef]] /\
     step s (DragEnd (str_id a) (Some (str_id o))) = Throw TypeError).
  { intros ->.
    assert (Hh : handleDragEnd (str_id a) (Some (str_id o)) s = Ok [SetLinks [VUndef]])
      by now rewrite (handleDragEnd_links s [] a o Hl Hne).
    split; [exact Hh|]. unfold step. cbn [handle]. rewrite Hh. reflexivity. }
  pose proof (handleDragEnd_links s L a o Hl Hne) as Hh0. unfold found_index in Hh0.
  split; [|split; [|split; [|exact Hempty]]]; rewrite Hh0.
  - intros i x Hi Hx Ho. apply index_of_None in Ho. rewrite Hi, Ho.
    rewrite (arrayMove_to_end _ i (link_value x)) by (now rewrite nth_error_map, Hx).
    now rewrite remove_at_map, map_app.
  - intros j x Ha Hj Hx. cbv zeta. apply index_of_None in Ha. rewrite Ha, Hj.
    assert (HL : L <> []) by (intros ->; destruct j; discriminate).
    destruct (index_of_nth _ _ _ Hj) as (y & Hy & _).
    assert (Hjlt : j < length L) by (apply nth_error_Some; congruence).
    rewrite arrayMove_from_missing by (destruct L; [contradiction|discriminate]).
    rewrite length_map.
    replace (Z.of_nat (length L) - 1)%Z with (Z.of_nat (length L - 1)) by lia.
    now rewrite (arrayMove_typed L (length L - 1) j x Hx Hjlt).
  - intros Ha Ho HL. apply index_of_None in Ha, Ho. rewrite Ha, Ho.
    assert (Hlen : 0 < length L) by (destruct L; [contradiction|cbn; lia]).
    destruct (nth_error L (length L - 1)) as [x|] eqn:Hx;
      [|apply nth_error_None in Hx; lia].
    rewrite arrayMove_from_missing by (destruct L; [contradiction|discriminate]).
    rewrite length_map.
    replace (Z.of_nat (length L) - 1)%Z with (Z.of_nat (length L - 1)) by lia.
    rewrite (arrayMove_to_end _ (length L - 1) (link_value x))
      by (now rewrite nth_error_map, Hx).
    rewrite Hl, remove_at_map. do 2 f_equal.
    change [link_value x] with (map link_value [x]). rewrite <- map_app.
    now rewrite (remove_last_append L x Hx).
Qed.

Lemma drag_with_missing_ids_witness :
  handleDragEnd (str_id (js "1")) (Some (str_id (js "9"))) mounted_state
  = Ok [SetLinks (map link_value
          (remove_at 0 initial_links
           ++ [mkLink (js "1") (js "Google") (js "https://google.com")]))].
Proof.
  refine (proj1 (drag_with_missing_ids mounted_state initial_links (js "1") (js "9")
                   eq_refl _) 0 _ eq_refl eq_refl _).
  - discriminate.
  - cbn. intros [H|[H|[]]]; discriminate.
Defined.

Ltac handler_inv H :=
  cbn [handle] in H;
  unfold addLink, updateLink, removeLink, handleDragEnd, handleJsonChange,
         uploadJson, downloadJson, bind in H;
  handler_cases.

(** ** Unique ids *)

Lemma filter_keeps_unique_ids (keep : LinkItem -> bool) (L : list LinkItem) :
  NoDup (map id L) -> NoDup (map id (filter keep L)).
Proof.
  intros Hd. induction L as [|l L IH]; [constructor|].
  cbn [map filter] in *. inversion Hd as [|? ? Hn Hd']; subst.
  destruct (keep l); cbn [map]; [constructor|]; auto.
  intros Hin. apply Hn. apply in_map_iff in Hin as (y & <- & Hy).
  apply filter_In in Hy as [Hy _]. now apply in_map.
Qed.

Lemma next_items_NoDup (e : Event) (L : list LinkItem) :
  NoDup (map id L) ->
  (forall uuid, e = ClickAdd uuid -> ~ In uuid (map id L)) ->
  NoDup (map id (next_items e L)).
Proof.
  intros Hd Hfresh.
  destruct e as [uuid|[[| |b|n|i|xs|ps]|r] f v|[[| |b|n|i|xs|ps]|r]| | | | | | |];
    cbn [next_items]; auto.
  - rewrite map_app. cbn [map].
    apply (Permutation_NoDup (Permutation_cons_append (map id L) uuid)).
    constructor; [now apply Hfresh | exact Hd].
  - rewrite map_map. erewrite map_ext; [exact Hd|].
    intros l. cbn. destruct (str_eqb (id l) i); [apply set_field_id | reflexivity].
  - now apply filter_keeps_unique_ids.
Qed.

(** The id of an event that a row of link items raises is the string id of
    one of the items. *)
Lemma typed_row_id (isRO : bool) (n : nat) (l : LinkItem) (i : Id) :
  row_has_id i (SortableLinkRow isRO n (link_value l)) = true -> i = str_id (id l).
Proof.
  unfold row_has_id, row_id, id_of_row. cbn.
  destruct i as [[| |b|x|y|xs|ps]|r]; try discriminate.
  intros H. apply str_eqb_eq in H. now subst.
Qed.

Lemma dispatch_typed_id (isRO : bool) (L : list LinkItem) (q : RowView -> bool) (i : Id)
    (k : nat) :
  existsb (fun r => row_has_id i r && q r) (rows_from k isRO (map link_value L)) = true ->
  exists l, In l L /\ i = str_id (id l).
Proof.
  intros H. apply existsb_exists in H as (r & Hr & H).
  apply andb_true_iff in H as [H _].
  apply rows_from_In in Hr as (n & x & -> & Hx).
  apply in_map_iff in Hx as (l & <- & Hl).
  exists l. split; [exact Hl|]. now apply typed_row_id in H.
Qed.



(** X6: distinct ids stay distinct.  From a state whose title is a string
    and whose links are link items with pairwise distinct ids, every event
    the rendered controls can raise, other than a JSON text (typed or
    loaded), has a next state of the same kind, provided the id that
    [crypto.randomUUID()] gives to [addLink] is not in the list. *)
Theorem unique_ids_are_kept (s : State) (T : jsstring) (L : list LinkItem) (e : Event) :
  title s = VStr T ->
  links s = map link_value L ->
  NoDup (map id L) ->
  can_dispatch (render s) e = true ->
  is_text_input e = false ->
  (forall uuid, e = ClickAdd uuid -> ~ In uuid (map id L)) ->
  exists s' T' L',
    step s e = Ok s' /\
    title s' = VStr T' /\ links s' = map link_value L' /\ NoDup (map id L').
Proof.
  intros Ht Hl Hd Hcd Htxt Hfresh.
  assert (Hstep : forall cmds T' L',
    handle s e = Ok cmds ->
    title (commit s cmds) = VStr T' -> links (commit s cmds) = map link_value L' ->
    NoDup (map id L') ->
    exists s' T' L', step s e = Ok s' /\
      title s' = VStr T' /\ links s' = map link_value L' /\ NoDup (map id L')).
  { intros cmds T' L' Hh Ht' Hl' Hd'.
    destruct (step_of_handle _ _ _ Hh) as (s' & Hs & Ht2 & Hl2 & _).
    { intros _. now apply (renders_typed _ T' L'). }
    exists s', T', L'. repeat split; [exact Hs | congruence | congruence | exact Hd']. }
  assert (Hedit : is_list_edit e = true ->
    exists s' T' L', step s e = Ok s' /\
      title s' = VStr T' /\ links s' = map link_value L' /\ NoDup (map id L')).
  { intros He. apply (Hstep _ T (next_items e L) (handle_list_edit s L e Hl He));
      [exact Ht | reflexivity | now apply next_items_NoDup]. }
  destruct e as [uuid|i f v|i|a ov|v|text| | |text|]; try discriminate Htxt.
  - now apply Hedit.
  - assert (Hi : exists l, In l L /\ i = str_id (id l)).
    { destruct f; cbn [can_dispatch render rows] in Hcd; rewrite Hl in Hcd;
        exact (dispatch_typed_id _ _ _ _ _ Hcd). }
    destruct Hi as (l & _ & ->). now apply Hedit.
  - assert (Hi : exists l, In l L /\ i = str_id (id l)).
    { cbn [can_dispatch render rows] in Hcd. rewrite Hl in Hcd.
      exact (dispatch_typed_id _ _ _ _ _ Hcd). }
    destruct Hi as (l & _ & ->). now apply Hedit.
  - (* handleDragEnd *)
    assert (HL : L <> []).
    { intros ->. cbn in Hcd. rewrite Hl in Hcd. discriminate. }
    destruct ov as [o|]; [|now apply (Hstep [] T L)].
    destruct (Id_equal a o) eqn:E.
    { apply (Hstep [] T L); try assumption.
      cbn [handle]. unfold handleDragEnd. now rewrite E. }
    destruct (Array_findIndex_typed a L 0) as (n & Hn & Hnr).
    destruct (Array_findIndex_typed o L 0) as (m & Hm & _).
    destruct (arrayMove_links L n m HL) as (L' & HL' & HP); [lia|].
    apply (Hstep [SetLinks (map link_value L')] T L').
    + cbn [handle]. unfold handleDragEnd, Array_findIndex. rewrite E. cbn [negb].
      rewrite Hl, Hn, Hm. cbn [bind]. now rewrite HL'.
    + exact Ht.
    + reflexivity.
    + apply (Permutation_NoDup (Permutation_map id HP) Hd).
  - (* the title input *)
    now apply (Hstep [SetTitle (VStr v)] v L).
  - now apply (Hstep [SetIsJsonOpen (negb (isJsonOpen s))] T L).
  - now apply (Hstep [SetIsReadOnly (negb (isReadOnly s))] T L).
  - apply (Hstep [] T L); try assumption.
    cbn [handle]. unfold downloadJson, download_name. now rewrite Ht.
Qed.

Lemma unique_ids_are_kept_witness :
  exists s' T' L',
    step mounted_state (DragEnd (str_id (js "2")) (Some (str_id (js "1")))) = Ok s' /\
    title s' = VStr T' /\ links s' = map link_value L' /\ NoDup (map id L').
Proof.
  apply (unique_ids_are_kept mounted_state (js "My Useful Links") initial_links
           (DragEnd (str_id (js "2")) (Some (str_id (js "1"))))); try reflexivity.
  - cbn. constructor; [intros [H|[]]; discriminate H|].
    constructor; [intros []|constructor].
  - intros uuid H. discriminate H.
Defined.

(** ** Exceptions *)

Lemma get_or_throw (v : value) (k : jsstring) :
  get v k = if nullish v then Throw TypeError else Ok (prop v k).
Proof. now destruct v. Qed.

Lemma Array_map_get (g : nat -> value -> value -> value) (k : jsstring)
    (xs : list value) :
  forall i,
    if existsb nullish xs
    then Array_map_from i (fun row link => x <- get link k ;; Ok (g row link x)) xs
         = Throw TypeError
    else exists ys,
         Array_map_from i (fun row link => x <- get link k ;; Ok (g row link x)) xs
         = Ok ys /\ length ys = length xs.
Proof.
  induction xs as [|x xs IH]; intros i; [now exists []|].
  cbn [Array_map_from existsb]. rewrite get_or_throw. specialize (IH (S i)).
  destruct (nullish x); [reflexivity|]. cbn [orb bind].
  destruct (existsb nullish xs).
  - now rewrite IH.
  - destruct IH as (ys & -> & Hlen). cbn [bind]. eexists. split; [reflexivity|].
    cbn [length]. now rewrite Hlen.
Qed.

Lemma Array_filter_get (g : nat -> value -> bool) (k : jsstring) (xs : list value) :
  forall i,
    if existsb nullish xs
    then Array_filter_from i (fun row link => x <- get link k ;; Ok (g row x)) xs
         = Throw TypeError
    else exists ys,
         Array_filter_from i (fun row link => x <- get link k ;; Ok (g row x)) xs
         = Ok ys /\ length ys <= length xs.
Proof.
  induction xs as [|x xs IH]; intros i; [now exists []|].
  cbn [Array_filter_from existsb]. rewrite get_or_throw. specialize (IH (S i)).
  destruct (nullish x); [reflexivity|]. cbn [orb bind].
  destruct (existsb nullish xs).
  - now rewrite IH.
  - destruct IH as (ys & -> & Hlen). cbn [bind]. eexists. split; [reflexivity|].
    destruct (g i (prop x k)); cbn [length]; lia.
Qed.

Lemma Array_findIndex_get (g : nat -> value -> bool) (k : jsstring) (xs : list value) :
  existsb nullish xs = false ->
  forall i, exists n,
    Array_findIndex_from i (fun row item => x <- get item k ;; Ok (g row x)) xs = Ok n.
Proof.
  induction xs as [|x xs IH]; intros Hn i; [now eexists|].
  cbn [existsb] in Hn. apply orb_false_iff in Hn as [Hx Hn].
  cbn [Array_findIndex_from]. rewrite get_or_throw, Hx. cbn [bind].
  destruct (g i (prop x k)); [now eexists | now apply IH].
Qed.

(** [App] reads [link.id] of every link: a state that renders has no link
    that is [null] or [undefined]. *)
Lemma keys_no_nullish (xs : list value) :
  forall i,
    Array_each_from i (fun _ link => k <- get link (js "id") ;; React_string k) xs = Ok tt ->
    existsb nullish xs = false.
Proof.
  induction xs as [|x xs IH]; intros i H; [reflexivity|].
  cbn [Array_each_from existsb] in *. rewrite get_or_throw in H.
  destruct (nullish x); [discriminate H|]. cbn [bind orb] in *.
  destruct (React_string (prop x (js "id"))) as [[]|]; [|discriminate H].
  cbn [bind] in H. now apply (IH (S i)).
Qed.

Lemma renders_no_nullish (s : State) : renders s -> existsb nullish (links s) = false.
Proof.
  unfold renders, App_render, Array_each. intros H.
  destruct (Array_each_from 0 _ (links s)) as [[]|] eqn:E; [|discriminate H].
  now apply keys_no_nullish in E.
Qed.

(** X7: the updaters that [updateLink] and [removeLink] hand to [setLinks]
    read [link.id] of every element: they throw a TypeError exactly when
    the list holds [null] or [undefined], and otherwise [updateLink] keeps
    the length of the list and [removeLink] does not make it longer.  A
    state the page shows holds no such element, since its render reads
    [link.id] too: in a state the page shows no handler other than Save
    throws.  (Whether the render that follows throws is another matter.) *)
Theorem handlers_throw_on_null_items (s : State) :
  (forall i f v,
     if existsb nullish (links s) then updateLink i f v s = Throw TypeError
     else exists items,
       updateLink i f v s = Ok [SetLinks items] /\ length items = length (links s)) /\
  (forall i,
     if existsb nullish (links s) then removeLink i s = Throw TypeError
     else exists items,
       removeLink i s = Ok [SetLinks items] /\ length items <= length (links s)) /\
  (renders s -> existsb nullish (links s) = false) /\
  (renders s -> forall e, e <> ClickSave -> exists cmds, handle s e = Ok cmds).
Proof.
  assert (Hu : forall i f v,
     if existsb nullish (links s) then updateLink i f v s = Throw TypeError
     else exists items,
       updateLink i f v s = Ok [SetLinks items] /\ length items = length (links s)).
  { intros i f v. unfold updateLink, Array_map.
    pose proof (Array_map_get
      (fun row link x => if same_id row x i then with_field link f v else link)
      (js "id") (links s) 0) as H.
    destruct (existsb nullish (links s)).
    - now rewrite H.
    - destruct H as (ys & -> & Hlen). now exists ys. }
  assert (Hr : forall i,
     if existsb nullish (links s) then removeLink i s = Throw TypeError
     else exists items,
       removeLink i s = Ok [SetLinks items] /\ length items <= length (links s)).
  { intros i. unfold removeLink, Array_filter.
    pose proof (Array_filter_get (fun row x => negb (same_id row x i))
      (js "id") (links s) 0) as H.
    destruct (existsb nullish (links s)).
    - now rewrite H.
    - destruct H as (ys & -> & Hlen). now exists ys. }
  split; [exact Hu|]. split; [exact Hr|]. split; [apply renders_no_nullish|].
  intros Hs e He. apply renders_no_nullish in Hs.
  destruct e as [uuid|i f v|i|a ov|v|text| | |text|];
    try (exfalso; now apply He); cbn [handle]; try (now eexists).
  - specialize (Hu i f v). rewrite Hs in Hu. destruct Hu as (ys & -> & _). now eexists.
  - specialize (Hr i). rewrite Hs in Hr. destruct Hr as (ys & -> & _). now eexists.
  - unfold handleDragEnd. destruct ov as [o|]; [|now eexists].
    destruct (negb (Id_equal a o)); [|now eexists].
    unfold Array_findIndex.
    destruct (Array_findIndex_get (fun row x => same_id row x a) (js "id")
                (links s) Hs 0) as (n & ->).
    destruct (Array_findIndex_get (fun row x => same_id row x o) (js "id")
                (links s) Hs 0) as (m & ->).
    cbn [bind]. now eexists.
  - unfold handleJsonChange. destruct (isReadOnly s); now eexists.
Qed.

Lemma handlers_throw_on_null_items_witness :
  (exists cmds, handle mounted_state (ClickRemove (str_id (js "1"))) = Ok cmds) /\
  removeLink (str_id (js "1")) (commit mounted_state [SetLinks [VNull]]) = Throw TypeError.
Proof.
  split.
  - apply (proj2 (proj2 (proj2 (handlers_throw_on_null_items mounted_state))));
      [reflexivity | discriminate].
  - exact (proj1 (proj2 (handlers_throw_on_null_items
                           (commit mounted_state [SetLinks [VNull]]))) (str_id (js "1"))).
Defined.

(** ** What an event leaves alone *)

(** X8: [jsonError] is written by [handleJsonChange] only.  Outside
    read-only mode the error is cleared exactly when the typed text is
    accepted; every other event, a successful Load and closing the panel
    included, leaves a message of an earlier edit in place. *)
Theorem json_error_changes_only_by_typing (s : State) (e : Event) (s' : State) :
  step s e = Ok s' ->
  match e with
  | EditJson text =>
      if isReadOnly s then jsonError s' = jsonError s
      else (jsonError s' = None <-> accepted text <> None)
  | _ => jsonError s' = jsonError s
  end.
Proof.
  intros H.
  destruct (isReadOnly s) eqn:Hro, e;
    try (destruct (step_cells_inv _ _ _ H) as (cmds & Hh & _ & _ & _ & _ & ->);
         handler_inv Hh; try reflexivity; congruence).
  - destruct (step_cells_inv _ _ _ H) as (cmds & Hh & _ & _ & _ & _ & ->).
    cbn [handle] in Hh. unfold accepted.
    destruct (JSON_parse text) as [parsed|] eqn:Hp.
    + destruct (accepted_items parsed) as [items|] eqn:Ha.
      * destruct (handleJsonChange_accepted _ s _ _ Hro Hp Ha) as (cmds' & Hh' & Hc).
        rewrite Hh in Hh'. injection Hh' as <-. rewrite Hc.
        cbn. split; [discriminate | reflexivity].
      * rewrite (handleJsonChange_format _ _ _ Hro Hp Ha) in Hh. injection Hh as <-.
        cbn. split; [discriminate | congruence].
    + rewrite (handleJsonChange_syntax _ _ Hro Hp) in Hh. injection Hh as <-.
      cbn. split; [discriminate | congruence].
Qed.

Lemma json_error_changes_only_by_typing_witness :
  exists s1 s2,
    step mounted_state (EditJson (js "{")) = Ok s1 /\
    step s1 (FileLoaded (js "[]")) = Ok s2 /\
    links s2 = [] /\
    jsonError s1 = Some (js "Invalid JSON syntax") /\
    jsonError s2 = jsonError s1.
Proof.
  eexists. eexists. split; [reflexivity|]. split; [reflexivity|]. split; [reflexivity|].
  split; [reflexivity|].
  match goal with
  | |- jsonError ?s2 = jsonError ?s1 =>
      exact (json_error_changes_only_by_typing s1 (FileLoaded (js "[]")) s2 eq_refl)
  end.
Defined.

Lemma Array_each_throws (f : nat -> value -> res unit) (xs : list value) (x : value) :
  In x xs ->
  (forall i, exists e, f i x = Throw e) ->
  forall k, exists e, Array_each_from k f xs = Throw e.
Proof.
  intros Hin Hx. induction xs as [|y xs IH]; intros k; [contradiction|].
  cbn [Array_each_from]. destruct Hin as [->|Hin].
  - destruct (Hx k) as (e & ->). now exists e.
  - destruct (f k y) as [[]|e]; [|now exists e]. cbn [bind]. now apply IH.
Qed.

(** X9: the two mode flags.  [isReadOnly] changes by the read-only toggle
    alone and [isJsonOpen] by the drawer handle alone, and the read-only
    toggle writes no other cell.  With a string title and link items two
    clicks on it give back the state.  The click into read-only mode
    throws when a link has a truthy url that is not a string: the row then
    calls [link.url.startsWith]. *)
Theorem modes_change_only_by_their_toggles (s : State) :
  (forall e s', step s e = Ok s' ->
     isReadOnly s' = match e with
                     | ToggleReadOnly => negb (isReadOnly s)
                     | _ => isReadOnly s
                     end /\
     isJsonOpen s' = match e with
                     | ToggleJson => negb (isJsonOpen s)
                     | _ => isJsonOpen s
                     end) /\
  (forall s', step s ToggleReadOnly = Ok s' ->
     s' = mkState (title s) (links s) (isJsonOpen s) (negb (isReadOnly s))
            (jsonString s) (jsonError s)) /\
  (forall T L, title s = VStr T -> links s = map link_value L ->
     run s [ToggleReadOnly; ToggleReadOnly] = Ok s) /\
  (forall link,
     isReadOnly s = false ->
     In link (links s) ->
     truthy (prop link (js "url")) = true ->
     (forall u, prop link (js "url") <> VStr u) ->
     exists x, step s ToggleReadOnly = Throw x).
Proof.
  split; [|split; [|split]].
  - intros e s' H.
    destruct (step_cells_inv _ _ _ H) as (cmds & Hh & _ & _ & -> & -> & _).
    destruct e; handler_inv Hh; split; cbn; congruence.
  - intros s' H. unfold step in H. cbn in H.
    destruct (App_render _) in H; [|discriminate H]. now injection H as <-.
  - intros T L Ht Hl. destruct s as [t l o r j err]. cbn in Ht, Hl. subst.
    unfold run, step. cbn.
    rewrite typed_renders. cbn. rewrite typed_renders. cbn.
    now rewrite negb_involutive.
  - intros link Hro Hin Htr Hns. unfold step. cbn [handle bind calls_setter existsb orb].
    assert (Hrow : forall i : nat, exists x,
              SortableLinkRow_render true link = Throw x).
    { intros _. unfold SortableLinkRow_render.
      destruct (get link (js "id")) as [k|x]; [|now exists x]. cbn [bind].
      rewrite Htr. destruct (prop link (js "url")); try (now exists TypeError).
      now elim (Hns s0). }
    unfold App_render. cbn [commit fold_left apply_cmd links title isReadOnly].
    rewrite Hro. cbn [negb].
    destruct (Array_each _ (links s)) as [[]|x]; [|now exists x]. cbn [bind].
    destruct (title_render true (title s)) as [[]|x]; [|now exists x]. cbn [bind].
    destruct (Array_each_throws (fun _ l => SortableLinkRow_render true l) (links s) link
                Hin Hrow 0) as (x & Hx).
    unfold Array_each. rewrite Hx. now exists x.
Qed.

Lemma modes_change_only_by_their_toggles_witness :
  run locked_state [ToggleReadOnly; ToggleReadOnly] = Ok locked_state /\
  exists x,
    step (commit mounted_state
            [SetLinks [VObj [(js "id", VStr (js "1")); (js "url", VBool true)]]])
         ToggleReadOnly = Throw x.
Proof.
  split.
  - apply (proj1 (proj2 (proj2 (modes_change_only_by_their_toggles locked_state)))
             (js "My Useful Links") initial_links); reflexivity.
  - apply (proj2 (proj2 (proj2 (modes_change_only_by_their_toggles
             (commit mounted_state
                [SetLinks [VObj [(js "id", VStr (js "1")); (js "url", VBool true)]]]))))
             (VObj [(js "id", VStr (js "1")); (js "url", VBool true)])).
    + reflexivity.
    + now left.
    + reflexivity.
    + intros u H. discriminate H.
Defined.

Lemma existsb_locked_rows (P : RowView -> bool) (xs : list value) :
  (forall n x, P (SortableLinkRow true n x) = false) ->
  forall i, existsb P (rows_from i true xs) = false.
Proof.
  intros HP. induction xs as [|x xs IH]; intros i; [reflexivity|].
  cbn [rows_from existsb]. now rewrite HP, IH.
Qed.

Lemma can_dispatch_read_only (s : State) (e : Event) :
  isReadOnly s = true ->
  can_dispatch (render s) e = true ->
  e = ToggleJson \/ e = ToggleReadOnly \/ (exists text, e = FileLoaded text) \/ e = ClickSave.
Proof.
  intros Hro. unfold render. rewrite Hro.
  destruct e as [uuid|i f v|i|a over|v|text| | |text|];
    cbn [can_dispatch rows add_button title_input textarea_readOnly negb];
    try discriminate; try destruct f;
    try (rewrite existsb_locked_rows;
         [discriminate | intros n x; cbn; now rewrite ?andb_false_r]);
    intros _; eauto.
Qed.

(** X10: in read-only mode the rendered controls can raise four events:
    the two toggles, Save and Load.  Of these only a Load of an accepted
    text changes the links or the title, and that one is not guarded. *)
Theorem read_only_data_changes_only_by_load (s : State) (e : Event) (s' : State) :
  isReadOnly s = true ->
  can_dispatch (render s) e = true ->
  step s e = Ok s' ->
  (links s' = links s /\ title s' = title s) \/
  (exists text items, e = FileLoaded text /\ accepted text = Some items /\ links s' = items).
Proof.
  intros Hro Hcd H.
  destruct (can_dispatch_read_only s e Hro Hcd) as [-> | [-> | [(text & ->) | ->]]].
  - left. destruct (step_cells_inv _ _ _ H) as (cmds & Hh & -> & -> & _).
    handler_inv Hh. split; reflexivity.
  - left. destruct (step_cells_inv _ _ _ H) as (cmds & Hh & -> & -> & _).
    handler_inv Hh. split; reflexivity.
  - destruct (accepted text) as [items|] eqn:Ha.
    + right. exists text, items. repeat split; [exact Ha|].
      unfold accepted in Ha. destruct (JSON_parse text) as [parsed|] eqn:Hp; [|discriminate].
      destruct (step_cells_inv _ _ _ H) as (cmds & Hh & _ & -> & _).
      cbn [handle] in Hh. rewrite (uploadJson_accepted _ s _ _ Hp Ha) in Hh.
      now injection Hh as <-.
    + left. rewrite (step_FileLoaded_rejected _ s Ha) in H. injection H as <-. now split.
  - left. destruct (step_cells_inv _ _ _ H) as (cmds & Hh & -> & -> & _).
    handler_inv Hh. split; reflexivity.
Qed.

Lemma read_only_data_changes_only_by_load_witness :
  exists s',
    step locked_state (FileLoaded (js "[]")) = Ok s' /\
    ((links s' = links locked_state /\ title s' = title locked_state) \/
     (exists text items,
        FileLoaded (js "[]") = FileLoaded text /\ accepted text = Some items /\
        links s' = items)).
Proof.
  eexists. split; [reflexivity|].
  apply (read_only_data_changes_only_by_load locked_state (FileLoaded (js "[]")));
    reflexivity.
Defined.

(** ** The editor and the effect *)

Lemma edited_title_typed (T : jsstring) (L : list value) (old : value) :
  edited_title (VObj [(js "title", VStr T); (js "items", VArr L)]) old
  = match T with [] => old | _ => VStr T end.
Proof. now destruct T. Qed.

(** X12: the text of the mirror read back by the editor.  In a state the
    page shows outside read-only mode, typing the serialisation of a string
    title and link items is accepted and sets those links; it sets that
    title unless it is empty, in which case the title stays.  When the
    state itself has a string title and link items and is synchronised,
    typing its buffer again changes nothing but the error, which is
    cleared. *)
Theorem editor_reads_the_mirror_back (s : State) (T : jsstring) (L : list LinkItem) :
  isReadOnly s = false ->
  (renders s ->
   exists s',
     step s (EditJson (JSON_stringify_data (VStr T) (map link_value L))) = Ok s' /\
     links s' = map link_value L /\
     title s' = match T with [] => title s | _ => VStr T end /\
     jsonError s' = None) /\
  (title s = VStr T -> links s = map link_value L -> in_sync s ->
   step s (EditJson (jsonString s)) = Ok (commit s [SetJsonError None])).
Proof.
  intros Hro.
  pose proof (JSON_parse_stringify_typed T L) as Hp.
  assert (Ha : accepted_items
                 (VObj [(js "title", VStr T); (js "items", VArr (map link_value L))])
               = Some (map link_value L)) by reflexivity.
  split.
  - intros Hs. rewrite (step_EditJson_accepted _ s _ _ Hro Hp Ha).
    cbv zeta. rewrite edited_title_typed.
    assert (Hr : App_render
              (mkState (match T with [] => title s | _ => VStr T end)
                 (map link_value L) (isJsonOpen s) (isReadOnly s)
                 (JSON_stringify_data (VStr T) (map link_value L)) None) = Ok tt).
    { destruct T; [now apply renders_links | apply typed_renders]. }
    rewrite Hr. cbn [bind]. eexists. split; [reflexivity|].
    match goal with |- context [commit ?s1 (sync_effect ?s1)] =>
      destruct (sync_effect_cells s1) as (-> & -> & _ & _ & ->) end.
    repeat split.
  - intros Ht Hl Hsync. unfold in_sync in Hsync. rewrite Ht, Hl in Hsync.
    rewrite Hsync at 1. rewrite (step_EditJson_accepted _ s _ _ Hro Hp Ha).
    cbv zeta. rewrite edited_title_typed.
    assert (Hm : match T with [] => title s | _ => VStr T end = VStr T)
      by (rewrite Ht; now destruct T).
    rewrite Hm, typed_renders. cbn [bind]. f_equal.
    destruct s as [t l o r j err]. cbn in *. subst.
    unfold sync_effect, commit. cbn.
    destruct o; reflexivity.
Qed.

Lemma editor_reads_the_mirror_back_witness :
  step mounted_state (EditJson (jsonString mounted_state))
  = Ok (commit mounted_state [SetJsonError None]).
Proof.
  apply (proj2 (editor_reads_the_mirror_back mounted_state (js "My Useful Links")
                  initial_links eq_refl)); reflexivity.
Defined.

(** X13: the effect is idempotent, and it does nothing when the panel is
    open or when the buffer is already the serialisation: running it once
    more, as on a second mount, changes no cell. *)
Theorem effect_is_idempotent (s : State) :
  settle (settle s) = settle s /\
  (isJsonOpen s = true -> settle s = s) /\
  (in_sync s -> settle s = s).
Proof.
  unfold settle, sync_effect, in_sync. destruct s as [t l o r j err]. cbn.
  repeat split.
  - now destruct o.
  - now intros ->.
  - intros ->. now destruct o.
Qed.

Lemma effect_is_idempotent_witness : settle mounted_state = mounted_state.
Proof.
  apply (proj2 (proj2 (effect_is_idempotent mounted_state))). reflexivity.
Defined.

(** ** Save *)

Lemma name_unit_is_name_unit (c : code_unit) : is_name_unit (name_unit c) = true.
Proof.
  unfold is_name_unit, name_unit.
  destruct (is_upper c) eqn:U.
  - unfold is_upper, is_lower, in_range in *. apply andb_true_iff in U as [U1 U2].
    apply N.leb_le in U1, U2. vm_compute (ch _) in *.
    assert (E : (N.leb 97 (c + 32) && N.leb (c + 32) 122 = true)%N).
    { apply andb_true_iff. split; apply N.leb_le; lia. }
    now rewrite E.
  - destruct (is_lower c || is_digit c) eqn:E.
    + now rewrite E.
    + rewrite N.eqb_refl. apply orb_true_r.
Qed.

(** X14: the name [downloadJson] gives the file, for a string title: a
    non-empty base made of [a-z], [0-9] and ['_'] only, of the length of the
    title unless that is empty, followed by [.json]; the text is the
    serialisation of the title and the links, and Save leaves the state as
    it is. *)
Theorem file_name_shape (s : State) (t : jsstring) :
  title s = VStr t ->
  exists d base,
    downloadJson s = Ok d /\
    step s ClickSave = Ok s /\
    file_text d = JSON_stringify_data (title s) (links s) /\
    file_name d = base ++ js ".json" /\
    base <> [] /\
    forallb is_name_unit base = true /\
    (t <> [] -> length base = length t).
Proof.
  intros Ht. unfold step. cbn [handle]. unfold downloadJson, download_name. rewrite Ht.
  cbn [bind]. rewrite name_unit_correct.
  destruct t as [|c t].
  - exists (mkDownload (JSON_stringify_data (VStr []) (links s)) (js "links" ++ js ".json")),
      (js "links").
    repeat split; try reflexivity; [discriminate | contradiction].
  - eexists. exists (map name_unit (c :: t)). cbn [map].
    repeat split; try reflexivity; try discriminate.
    + cbn [forallb]. rewrite name_unit_is_name_unit. cbn [andb].
      apply forallb_forall. intros x Hx. apply in_map_iff in Hx as (y & <- & _).
      apply name_unit_is_name_unit.
    + intros _. cbn [length]. now rewrite length_map.
Qed.

Lemma file_name_shape_witness :
  exists d base,
    downloadJson mounted_state = Ok d /\
    step mounted_state ClickSave = Ok mounted_state /\
    file_text d = JSON_stringify_data (title mounted_state) (links mounted_state) /\
    file_name d = base ++ js ".json" /\
    base <> [] /\
    forallb is_name_unit base = true /\
    (js "My Useful Links" <> [] -> length base = length (js "My Useful Links")).
Proof.
  apply (file_name_shape mounted_state (js "My Useful Links")). reflexivity.
Defined.







(** ** The read-only page *)

(** X16: the link of a read-only row.  The target always starts with
    [http] (so no other scheme, such as [javascript:], reaches [href]), it
    is the url itself exactly when the url starts with [http], and
    computing it twice changes nothing; the anchor shows the url as typed,
    and there is an anchor exactly when the url is not empty. *)
Theorem read_only_link_target :
  (forall u,
     startsWith (link_href u) (js "http") = true /\
     link_href (link_href u) = link_href u /\
     (link_href u = u <-> startsWith u (js "http") = true)) /\
  (forall l,
     (url_cell l = NoUrl <-> url l = []) /\
     (url l <> [] -> url_cell l = Anchor (link_href (url l)) (url l))).
Proof.
  assert (H1 : forall u, startsWith (link_href u) (js "http") = true).
  { intros u. unfold link_href. destruct (startsWith u (js "http")) eqn:E; [exact E|].
    reflexivity. }
  split.
  - intros u. split; [apply H1|]. split.
    + unfold link_href at 1. now rewrite H1.
    + unfold link_href. destruct (startsWith u (js "http")); split; try reflexivity.
      * intros H. apply (f_equal (@length _)) in H. rewrite length_app in H.
        cbn in H. lia.
      * discriminate.
  - intros l. unfold url_cell. destruct (url l) as [|c u].
    + split; [split; reflexivity | intros H; now elim H].
    + split; [split; discriminate | reflexivity].
Qed.

Lemma read_only_link_target_witness :
  url_cell (mkLink (js "1") (js "a") (js "x.org"))
  = Anchor (link_href (js "x.org")) (js "x.org").
Proof.
  apply (proj2 (proj2 read_only_link_target (mkLink (js "1") (js "a") (js "x.org")))).
  discriminate.
Defined.

Lemma uploaded_title_truthy (parsed : value) : truthy (uploaded_title parsed) = true.
Proof.
  unfold uploaded_title, js_or. destruct (Array_isArray parsed); [reflexivity|].
  now destruct (truthy (prop parsed (js "title"))) eqn:E.
Qed.

Lemma edited_title_truthy (parsed old : value) :
  truthy old = true -> truthy (edited_title parsed old) = true.
Proof.
  intros H. unfold edited_title. destruct (Array_isArray parsed); [exact H|].
  now destruct (truthy (prop parsed (js "title"))) eqn:E.
Qed.

Lemma step_keeps_a_title (s : State) (e : Event) (s' : State) :
  step s e = Ok s' ->
  truthy (title s) = true ->
  e <> EditTitle [] ->
  truthy (title s') = true.
Proof.
  intros H Ht He.
  destruct e;
    try (destruct (step_cells_inv _ _ _ H) as (cmds & Hh & -> & _);
         handler_inv Hh; exact Ht).
  - (* the title input *)
    destruct (step_cells_inv _ _ _ H) as (cmds & Hh & -> & _).
    handler_inv Hh. cbn. destruct v; [now elim He | reflexivity].
  - (* handleJsonChange *)
    destruct (step_cells_inv _ _ _ H) as (cmds & Hh & -> & _). cbn [handle] in Hh.
    destruct (isReadOnly s) eqn:Hro.
    { rewrite (handleJsonChange_readonly _ _ Hro) in Hh. now injection Hh as <-. }
    destruct (JSON_parse text) as [parsed|] eqn:Hp.
    + destruct (accepted_items parsed) as [items|] eqn:Ha.
      * destruct (handleJsonChange_accepted _ s _ _ Hro Hp Ha) as (cmds' & Hh' & Hc).
        rewrite Hh in Hh'. injection Hh' as <-. rewrite Hc.
        now apply edited_title_truthy.
      * rewrite (handleJsonChange_format _ _ _ Hro Hp Ha) in Hh. now injection Hh as <-.
    + rewrite (handleJsonChange_syntax _ _ Hro Hp) in Hh. now injection Hh as <-.
  - (* uploadJson *)
    destruct (accepted text) as [items|] eqn:Ha.
    + unfold accepted in Ha. destruct (JSON_parse text) as [parsed|] eqn:Hp; [|discriminate].
      destruct (step_cells_inv _ _ _ H) as (cmds & Hh & -> & _). cbn [handle] in Hh.
      rewrite (uploadJson_accepted _ s _ _ Hp Ha) in Hh. injection Hh as <-.
      apply uploaded_title_truthy.
    + rewrite (step_FileLoaded_rejected _ s Ha) in H. now injection H as <-.
Qed.

(** X17: the fallback heading.  No handler but the one of the title input
    stores an empty title: the editor skips a falsy [parsed.title] and Load
    replaces it.  So from the first render on, as long as the title input
    has not been emptied, the title is truthy and the read-only heading
    shows the title itself, never ["Untitled List"] in its place; and
    after an accepted Load the title is truthy whatever it was before. *)
Theorem heading_falls_back_only_after_emptying (es : list Event) (s' : State) :
  run mounted_state es = Ok s' ->
  ~ In (EditTitle []) es ->
  truthy (title s') = true /\ heading (title s') = title s'.
Proof.
  intros Hrun Hes.
  assert (G : forall es s, truthy (title s) = true -> ~ In (EditTitle []) es ->
                run s es = Ok s' -> truthy (title s') = true).
  { clear. induction es as [|e es IH]; intros s Ht Hes Hrun.
    - cbn in Hrun. now injection Hrun as <-.
    - cbn [run] in Hrun. destruct (step s e) as [s1|] eqn:Hs; [|discriminate].
      cbn [bind] in Hrun. apply (IH s1); [|intros Hin; apply Hes; now right | exact Hrun].
      apply (step_keeps_a_title s e s1 Hs Ht). intros ->. apply Hes. now left. }
  assert (Ht : truthy (title s') = true) by (apply (G es mounted_state); auto).
  split; [exact Ht|]. unfold heading, js_or. now rewrite Ht.
Qed.

Lemma heading_falls_back_only_after_emptying_witness :
  exists s',
    run mounted_state [EditJson (js "[]"); ToggleReadOnly] = Ok s' /\
    truthy (title s') = true /\ heading (title s') = title s'.
Proof.
  eexists. split; [reflexivity|].
  apply (heading_falls_back_only_after_emptying [EditJson (js "[]"); ToggleReadOnly]);
    [reflexivity|].
  cbn. intros [H|[H|[]]]; discriminate H.
Defined.

(** ** The drawer *)

(** X18: opening and closing the drawer, in a state the page shows.  From
    a closed, synchronised state the two clicks give back the state.  From
    an open state, closing and opening again keeps every cell but the
    buffer, which becomes the serialisation of the title and the links: a
    draft that was not accepted is gone, while its error message stays. *)
Theorem drawer_open_close (s : State) :
  renders s ->
  (isJsonOpen s = false -> in_sync s -> run s [ToggleJson; ToggleJson] = Ok s) /\
  (isJsonOpen s = true ->
   run s [ToggleJson; ToggleJson]
   = Ok (commit s [SetJsonString (JSON_stringify_data (title s) (links s))])).
Proof.
  unfold renders, in_sync. destruct s as [t l o r j err].
  cbn [isJsonOpen jsonString title links]. intros Hr.
  assert (HR : forall o' j' err', App_render (mkState t l o' r j' err') = Ok tt).
  { intros o' j' err'. now rewrite (App_render_cells t l r o' o j' j err' err). }
  split.
  - intros -> ->. unfold run, step. cbn. rewrite HR. cbn. now rewrite HR.
  - intros ->. unfold run, step. cbn. rewrite HR. cbn. now rewrite HR.
Qed.

Lemma drawer_open_close_witness :
  run mounted_state [ToggleJson; ToggleJson] = Ok mounted_state.
Proof.
  apply (proj1 (drawer_open_close mounted_state eq_refl)); reflexivity.
Defined.
